(** * The cloud upload writer of nuclei (internal/pdcp/writer.go)

    A shallow embedding of [UploadWriter]: the request builder
    [getRequest], the network exchange [upload], the flush [uploadChunk],
    the collector goroutine and the [select] loop of [autoCommit], with
    the theorems that relate them to the written description of the
    uploader.

    Go strings and byte slices are byte sequences; identifiers, URLs and
    header values are [string], payload data is [list byte].  Lengths are
    Go [int]s and are kept in [Z].  Every function that can return an
    [error] runs in a small state-and-error monad over the one record
    that gathers the writer's fields and the buffer owned by
    [autoCommit]. *)

From Stdlib Require Import ZArith List Strings.String Strings.Ascii Strings.Byte Bool Lia.
From Stdlib Require Import Sorting.Permutation.
Import ListNotations.

Local Open Scope string_scope.
Local Open Scope list_scope.
Local Open Scope Z_scope.

(** ** Values *)

Definition bytes : Type := list byte.

(** [len] is Go's [len] on a byte sequence, an [int]. *)
Definition len (b : bytes) : Z := Z.of_nat (List.length b).

(** Arguments of a format verb, as the code passes them. *)
Inductive arg : Type :=
| ArgInt (n : Z)
| ArgStr (s : string)
| ArgBytes (b : bytes).

(** Error values.  [Errorf] is [fmt.Errorf]; [NewWithErr cause f args] is
    [errorutil.NewWithErr(cause).Msgf(f, args...)].  Errors coming from a
    library are values of the same type, handed in by the environment. *)
Inductive error : Type :=
| Errorf (format : string) (args : list arg)
| NewWithErr (cause : error) (format : string) (args : list arg).

(** The two fields of [pdcpauth.PDCPCredentials] that the writer reads. *)
Record PDCPCredentials : Type := mkCreds {
  Server : string;
  APIKey : string
}.

(** [url.URL], with the components the writer touches.  [URL_String]
    renders it; percent-escaping of the path is left out. *)
Record URL : Type := mkURL {
  Scheme : string;
  Host : string;
  Path : string;
  RawQuery : string
}.

Definition URL_String (u : URL) : string :=
  (Scheme u ++ "://" ++ Host u ++ Path u
     ++ (if (RawQuery u =? "")%string then "" else "?" ++ RawQuery u))%string.

Definition set_Path (p : string) (u : URL) : URL :=
  mkURL (Scheme u) (Host u) p (RawQuery u).

Definition set_RawQuery (q : string) (u : URL) : URL :=
  mkURL (Scheme u) (Host u) (Path u) q.

(** [http.Header] restricted to [Set] and [Get] on keys given in canonical
    form: [Set] replaces whatever the key held. *)
Definition Header : Type := list (string * string).

Definition Header_Set (k v : string) (h : Header) : Header :=
  (k, v) :: filter (fun kv => negb (fst kv =? k)%string) h.

Fixpoint Header_Get (k : string) (h : Header) : string :=
  match h with
  | [] => ""
  | (k', v) :: h' => if (k' =? k)%string then v else Header_Get k h'
  end.

Record Request : Type := mkRequest {
  req_Method : string;
  req_URL : URL;
  req_Header : Header;
  req_Body : bytes
}.

Definition set_req_URL (u : URL) (r : Request) : Request :=
  mkRequest (req_Method r) u (req_Header r) (req_Body r).

Definition set_req_Header (h : Header) (r : Request) : Request :=
  mkRequest (req_Method r) (req_URL r) h (req_Body r).

(** An [http.Response]: [resp_Body] is what [io.ReadAll(resp.Body)]
    yields, [resp_Request] is [resp.Request]. *)
Record Response : Type := mkResponse {
  resp_StatusCode : Z;
  resp_Body : error + bytes;
  resp_Request : Request
}.

(** Modelled from the spec: the declaration of [uploadResponse] is not in
    the sources at hand; the success response is a JSON object with an
    identifier field, the only field [upload] reads. *)
Record uploadResponse : Type := mkUploadResponse {
  ID : string
}.

Definition MethodPost : string := "POST".
Definition MethodPatch : string := "PATCH".
Definition StatusOK : Z := 200.

Definition uploadEndpoint : string := "/v1/scans/import".
Definition appendEndpoint : string := "/v1/scans/%s/import".
Definition MaxChunkSize : Z := 1024 * 1024 * 4.

(** [fmt.Sprintf] for a format with one [%s] verb. *)
Fixpoint Sprintf (format a : string) : string :=
  match format with
  | EmptyString => EmptyString
  | String c rest =>
      match rest with
      | String d rest' =>
          if (Ascii.eqb c "%" && Ascii.eqb d "s")%bool
          then (a ++ rest')%string
          else String c (Sprintf rest a)
      | EmptyString => String c EmptyString
      end
  end.

(** ** What the writer gets from outside

    Library code and the remote endpoint.  [client_Do] sees the requests
    handed to the client before the current one, so an endpoint may answer
    differently over time. *)
Record Env : Type := mkEnv {
  ApiKeyHeaderName : string;
  GetpdtmParams : string;
  urlutil_Parse : string -> error + URL;
  output_NewWriter : option error;
  NewRequest_check : string -> string -> option error;
  client_Do : list Request -> Request -> error + Response;
  json_Unmarshal : bytes -> error + uploadResponse;
  getScanDashBoardURL : string -> string
}.

(** ** Log lines *)

Inductive Level : Type := Verbose | Info | Warning | Error.

Record LogEntry : Type := mkLog {
  log_level : Level;
  log_format : string;
  log_args : list arg;
  log_err : option error
}.

(** ** State

    The fields of [UploadWriter] that change or are read after
    construction, the [bytes.Buffer] local to [autoCommit], the requests
    given to [client.Do] (oldest first), the log, and the number of values
    put on the [done] channel. *)
Record State : Type := mkState {
  creds : PDCPCredentials;
  uploadURL : URL;
  scanID : string;
  counter : Z;
  buff : bytes;
  sent : list Request;
  logs : list LogEntry;
  done : nat
}.

Definition set_uploadURL (u : URL) (s : State) : State :=
  mkState (creds s) u (scanID s) (counter s) (buff s) (sent s) (logs s) (done s).

Definition set_scanID (id : string) (s : State) : State :=
  mkState (creds s) (uploadURL s) id (counter s) (buff s) (sent s) (logs s) (done s).

Definition set_counter (c : Z) (s : State) : State :=
  mkState (creds s) (uploadURL s) (scanID s) c (buff s) (sent s) (logs s) (done s).

Definition set_buff (b : bytes) (s : State) : State :=
  mkState (creds s) (uploadURL s) (scanID s) (counter s) b (sent s) (logs s) (done s).

Definition push_sent (r : Request) (s : State) : State :=
  mkState (creds s) (uploadURL s) (scanID s) (counter s) (buff s)
          (sent s ++ [r]) (logs s) (done s).

Definition push_log (l : LogEntry) (s : State) : State :=
  mkState (creds s) (uploadURL s) (scanID s) (counter s) (buff s)
          (sent s) (logs s ++ [l]) (done s).

Definition signal_done (s : State) : State :=
  mkState (creds s) (uploadURL s) (scanID s) (counter s) (buff s)
          (sent s) (logs s) (S (done s)).

(** ** The monad *)

Definition M (A : Type) : Type := State -> (error + A) * State.

Definition ret {A : Type} (a : A) : M A := fun s => (inr a, s).

Definition fail {A : Type} (e : error) : M A := fun s => (inl e, s).

Definition bind {A B : Type} (m : M A) (k : A -> M B) : M B :=
  fun s =>
    match m s with
    | (inl e, s') => (inl e, s')
    | (inr a, s') => k a s'
    end.

Definition gets {A : Type} (f : State -> A) : M A := fun s => (inr (f s), s).

Definition modify (f : State -> State) : M unit := fun s => (inr tt, f s).

Definition lift {A : Type} (r : error + A) : M A := fun s => (r, s).

(** [if err != nil { return errorutil.NewWithErr(err).Msgf(f, args...) }] *)
Definition orWrap {A : Type} (m : M A) (f : string) (args : list arg) : M A :=
  fun s =>
    match m s with
    | (inl e, s') => (inl (NewWithErr e f args), s')
    | r => r
    end.

(** [if err := m; err != nil { h err }]: the error is consumed. *)
Definition orElse (m : M unit) (h : error -> M unit) : M unit :=
  fun s =>
    match m s with
    | (inl e, s') => h e s'
    | r => r
    end.

Declare Scope go_scope.
Delimit Scope go_scope with go.
Notation "x <- m ;; k" := (bind m (fun x => k))
  (at level 61, m at next level, right associativity) : go_scope.
Notation "m ;; k" := (bind m (fun _ => k))
  (at level 61, right associativity) : go_scope.
Local Open Scope go_scope.

Definition logf (lv : Level) (f : string) (args : list arg) (e : option error)
  : M unit :=
  modify (push_log (mkLog lv f args e)).

(** ** The writer *)

Section Writer.

Variable E : Env.

(** [NewUploadWriter]: [None] is the nil credentials pointer.  The state
    returned is the one in which the goroutine running [autoCommit]
    starts: no scan id, empty buffer. *)
Definition NewUploadWriter (c : option PDCPCredentials) : error + State :=
  match c with
  | None => inl (Errorf "no credentials provided" [])
  | Some cr =>
      match output_NewWriter E with
      | Some err => inl (NewWithErr err "could not create output writer" [])
      | None =>
          match urlutil_Parse E (Server cr) with
          | inl err => inl (NewWithErr err "could not parse server url" [])
          | inr tmp =>
              inr (mkState cr (set_Path uploadEndpoint tmp) "" 0 [] [] [] 0)
          end
      end
  end.

(** [SetScanID] *)
Definition SetScanID (id : string) (s : State) : State := set_scanID id s.

(** [retryablehttp.NewRequest(method, url, body)], called on
    [u.uploadURL.String()]: the request's URL is that URL parsed back. *)
Definition NewRequest (method : string) (u : URL) (body : bytes)
  : error + Request :=
  match NewRequest_check E method (URL_String u) with
  | Some err => inl err
  | None => inr (mkRequest method u [] body)
  end.

(** [getRequest] *)
Definition getRequest (bin : bytes) : M Request :=
  id <- gets scanID ;;
  method <-
    (if (id =? "")%string
     then modify (fun s => set_uploadURL (set_Path uploadEndpoint (uploadURL s)) s) ;;
          ret MethodPost
     else modify (fun s => set_uploadURL
                             (set_Path (Sprintf appendEndpoint id) (uploadURL s)) s) ;;
          ret MethodPatch) ;;
  url <- gets uploadURL ;;
  req <- orWrap (lift (NewRequest method url bin))
                "could not create cloud upload request" [] ;;
  key <- gets (fun s => APIKey (creds s)) ;;
  let req := set_req_URL (set_RawQuery (GetpdtmParams E) (req_URL req)) req in
  let req := set_req_Header (Header_Set (ApiKeyHeaderName E) key (req_Header req)) req in
  let req := set_req_Header
               (Header_Set "Content-Type" "application/octet-stream" (req_Header req)) req in
  let req := set_req_Header (Header_Set "Accept" "application/json" (req_Header req)) req in
  ret req.

(** [u.client.Do(req)] *)
Definition Do (req : Request) : M Response :=
  fun s => (client_Do E (sent s) req, push_sent req s).

(** [upload] *)
Definition upload (data : bytes) : M unit :=
  req <- orWrap (getRequest data) "could not create upload request" [] ;;
  resp <- orWrap (Do req) "could not upload results" [] ;;
  bin <- orWrap (lift (resp_Body resp)) "could not get id from response" [] ;;
  if negb (resp_StatusCode resp =? StatusOK)
  then fail (Errorf "could not upload results got status code %v on %v"
                    [ArgInt (resp_StatusCode resp);
                     ArgStr (URL_String (req_URL (resp_Request resp)))])
  else
    uploadResp <- orWrap (lift (json_Unmarshal E bin))
                         "could not unmarshal response got %v" [ArgBytes bin] ;;
    id <- gets scanID ;;
    if (negb (ID uploadResp =? "")%string && (id =? "")%string)%bool
    then modify (set_scanID (ID uploadResp))
    else ret tt.

(** [uploadChunk], on the buffer of [autoCommit] *)
Definition uploadChunk : M unit :=
  b <- gets buff ;;
  orWrap (upload b) "could not upload chunk" [] ;;
  modify (set_buff []) ;;
  id <- gets scanID ;;
  logf Warning "Uploaded results chunk, you can view scan results at %v"
       [ArgStr (getScanDashBoardURL E id)] None.

(** [atomic.Int32.Add]: two's complement wrap-around on 32 bits. *)
Definition Int32_Add (c d : Z) : Z := (c + d + 2 ^ 31) mod 2 ^ 32 - 2 ^ 31.

(** The goroutine that reads the pipe.  [data] holds the bytes
    [ReadString] has taken for the current line, [r] what is left of the
    stream; a line complete with its delimiter is counted and sent on the
    channel, and when the stream ends [ReadString] fails, the goroutine
    returns and the channel is closed.  The result lists the values sent,
    in order. *)
Fixpoint collector (data r : bytes) (s : State) : list bytes * State :=
  match r with
  | [] => ([], s)
  | c :: r' =>
      if Byte.eqb c x0a
      then let '(q, s') :=
             collector [] r' (set_counter (Int32_Add (counter s) 1) s) in
           ((data ++ [c]) :: q, s')
      else collector (data ++ [c]) r' s
  end.

(** What the [select] of [autoCommit] can receive. *)
Inductive Event : Type :=
| ctx_Done
| ticker_C
| ch_recv (line : bytes)
| ch_closed.

(** The receiving end of the channel: what was sent, in order, then the
    close. *)
Definition ch_events (q : list bytes) : list Event :=
  map ch_recv q ++ [ch_closed].

Inductive Ctl : Type := Continue | Return.

(** [if err := u.uploadChunk(buff); err != nil { gologger.Error()... }] *)
Definition flush : M unit :=
  orElse uploadChunk
         (fun err => logf Error "Failed to upload scan results on cloud: %v"
                          [] (Some err)).

(** [if buff.Len() > 0 { ... }] *)
Definition flushNonEmpty : M unit :=
  b <- gets buff ;;
  if len b >? 0 then flush else ret tt.

(** [buff.WriteString(line)] *)
Definition WriteString (line : bytes) (s : State) : State :=
  set_buff (buff s ++ line) s.

(** One turn of the [for { select { ... } }] of [autoCommit]. *)
Definition select (ev : Event) : M Ctl :=
  match ev with
  | ctx_Done => flushNonEmpty ;; ret Return
  | ticker_C => flushNonEmpty ;; ret Continue
  | ch_closed => flushNonEmpty ;; ret Return
  | ch_recv line =>
      b <- gets buff ;;
      (if len b + len line >? MaxChunkSize
       then flush
       else modify (WriteString line)) ;;
      ret Continue
  end.

(** The loop over the events the environment delivers; with no event left
    the goroutine is blocked in [select]. *)
Fixpoint loop (evs : list Event) : M Ctl :=
  match evs with
  | [] => ret Continue
  | ev :: rest =>
      c <- select ev ;;
      match c with
      | Return => ret Return
      | Continue => loop rest
      end
  end.

(** The deferred function of [autoCommit]. *)
Definition deferred : M unit :=
  modify signal_done ;;
  id <- gets scanID ;;
  n <- gets counter ;;
  if (id =? "")%string
  then logf Verbose
            "Scan results upload to cloud skipped, no results found to upload"
            [] None
  else logf Info
            "%v Scan results uploaded to cloud, you can view scan results at %v"
            [ArgInt n; ArgStr (getScanDashBoardURL E id)] None.

(** [autoCommit] *)
Definition autoCommit (evs : list Event) : M unit :=
  c <- loop evs ;;
  match c with
  | Return => deferred
  | Continue => ret tt
  end.

End Writer.

(** ** Sample environments

    Concrete endpoints and library behaviour, used to run the model. *)

Definition quote : ascii := "034"%char.

(** The body [{"id":"<id>"}]. *)
Definition json_id (id : string) : string :=
  ("{" ++ String quote "id" ++ String quote ":" ++ String quote id
       ++ String quote "}")%string.

Fixpoint strip_prefix (p s : string) : option string :=
  match p, s with
  | EmptyString, _ => Some s
  | String a p', String b s' =>
      if Ascii.eqb a b then strip_prefix p' s' else None
  | String _ _, EmptyString => None
  end.

Fixpoint until_quote (s : string) : option string :=
  match s with
  | EmptyString => None
  | String c r =>
      if Ascii.eqb c quote then Some EmptyString
      else option_map (String c) (until_quote r)
  end.

(** A decoder for bodies of the shape [{"id":"..."}]; the empty object
    decodes to an empty identifier. *)
Definition sample_Unmarshal (bin : bytes) : error + uploadResponse :=
  let s := string_of_list_byte bin in
  if (s =? "{}")%string then inr (mkUploadResponse "")
  else
    match strip_prefix ("{" ++ String quote "id" ++ String quote ":"
                            ++ String quote "")%string s with
    | Some rest =>
        match until_quote rest with
        | Some id => inr (mkUploadResponse id)
        | None => inl (Errorf "unexpected end of JSON input" [])
        end
    | None => inl (Errorf "invalid character" [])
    end.

Definition sample_Parse (srv : string) : error + URL :=
  inr (mkURL "https" srv "" "").

Definition sample_dashboard (id : string) : string :=
  ("https://cloud.projectdiscovery.io/scans/" ++ id)%string.

(** An endpoint that answers the [n]-th request (from 0) with [answer n]. *)
Definition sample_env (answer : nat -> Request -> error + Response) : Env :=
  mkEnv "X-Api-Key" "utm_source=nuclei" sample_Parse None
        (fun _ _ => None)
        (fun history req => answer (List.length history) req)
        sample_Unmarshal sample_dashboard.

Definition ok_with (id : string) (req : Request) : error + Response :=
  inr (mkResponse 200 (inr (list_byte_of_string (json_id id))) req).

(** Every request is accepted and answered with the identifier [s1]. *)
Definition env_ok : Env := sample_env (fun _ => ok_with "s1").

(** The first request fails in transport, the later ones are accepted. *)
Definition env_fail_once : Env :=
  sample_env (fun n req =>
                match n with
                | O => inl (Errorf "connection refused" [])
                | S _ => ok_with "s1" req
                end).

(** Every request fails in transport. *)
Definition env_down : Env :=
  sample_env (fun _ _ => inl (Errorf "connection refused" [])).

(** The first request is answered with [s1], the later ones with [s2]. *)
Definition env_two_ids : Env :=
  sample_env (fun n req =>
                match n with
                | O => ok_with "s1" req
                | S _ => ok_with "s2" req
                end).

Definition sample_creds : PDCPCredentials :=
  mkCreds "api.projectdiscovery.io" "key-123".

Definition sample_state : State :=
  mkState sample_creds
          (mkURL "https" "api.projectdiscovery.io" uploadEndpoint "")
          "" 0 [] [] [] 0.

(** ** Derived notions used in the statements *)

(** The path and method [getRequest] picks for a scan id. *)
Definition request_path (id : string) : string :=
  if (id =? "")%string then uploadEndpoint else Sprintf appendEndpoint id.

Definition request_method (id : string) : string :=
  if (id =? "")%string then MethodPost else MethodPatch.

(** The header after the three [Header.Set] calls of [getRequest]. *)
Definition request_headers (E : Env) (key : string) : Header :=
  Header_Set "Accept" "application/json"
    (Header_Set "Content-Type" "application/octet-stream"
       (Header_Set (ApiKeyHeaderName E) key [])).

(** The state after a response was decoded: the guarded assignment of
    [u.scanID] in [upload]. *)
Definition adopt (r : uploadResponse) (s : State) : State :=
  if (negb (ID r =? "")%string && (scanID s =? "")%string)%bool
  then set_scanID (ID r) s
  else s.

(** The error [upload] returns for a status other than 200. *)
Definition status_error (resp : Response) : error :=
  Errorf "could not upload results got status code %v on %v"
         [ArgInt (resp_StatusCode resp);
          ArgStr (URL_String (req_URL (resp_Request resp)))].

(** The log line of a failed flush. *)
Definition failed_entry (err : error) : LogEntry :=
  mkLog Error "Failed to upload scan results on cloud: %v" [] (Some err).

(** The state the loop is in after the events [evs]. *)
Definition exec (E : Env) (evs : list Event) (s : State) : State :=
  snd (loop E evs s).

(** [buff.WriteString] for each of [lines] in turn. *)
Definition WriteStrings (lines : list bytes) (s : State) : State :=
  fold_left (fun st l => WriteString l st) lines s.

(** ** Sample inputs *)

(** [record_of n] is a record of [n] bytes, delimiter included. *)
Definition record_of (n : Z) : bytes :=
  repeat "a"%byte (Z.to_nat (n - 1)) ++ [x0a].

(** A record of 3 MiB. *)
Definition big_record : bytes := record_of (3 * 1024 * 1024).

Definition sample_line : bytes := list_byte_of_string "abc" ++ [x0a].

Definition sample_loaded : State := set_buff sample_line sample_state.

Definition sample_state_s1 : State := set_scanID "s1" sample_state.

(** An endpoint that answers 500 with a body that breaks off. *)
Definition env_broken_body : Env :=
  sample_env (fun _ req =>
                inr (mkResponse 500 (inl (Errorf "unexpected EOF" [])) req)).

Definition sample_post : Request :=
  mkRequest "POST"
            (mkURL "https" "api.projectdiscovery.io" "/v1/scans/import"
                   "utm_source=nuclei")
            (request_headers env_broken_body "key-123") [x0a].

Definition sample_patch : Request :=
  mkRequest "PATCH"
            (mkURL "https" "api.projectdiscovery.io" "/v1/scans/s1/import"
                   "utm_source=nuclei")
            (request_headers env_ok "key-123") [x0a].

Definition refused_chunk : error :=
  NewWithErr (NewWithErr (Errorf "connection refused" []) "could not upload results" [])
             "could not upload chunk" [].

(** ** More notions about the loop *)

(** The events on which [autoCommit] returns. *)
Definition terminal (ev : Event) : bool :=
  match ev with
  | ctx_Done | ch_closed => true
  | ticker_C | ch_recv _ => false
  end.

Definition is_recv (ev : Event) : bool :=
  match ev with
  | ch_recv _ => true
  | _ => false
  end.

(** The records the loop takes from the channel before it returns. *)
Fixpoint received (evs : list Event) : list bytes :=
  match evs with
  | [] => []
  | ch_recv line :: rest => line :: received rest
  | ticker_C :: rest => received rest
  | ctx_Done :: _ => []
  | ch_closed :: _ => []
  end.

(** The request [getRequest] builds in state [s] for the data [bin]. *)
Definition request_for (E : Env) (s : State) (bin : bytes) : Request :=
  mkRequest (request_method (scanID s))
            (set_RawQuery (GetpdtmParams E)
                          (set_Path (request_path (scanID s)) (uploadURL s)))
            (request_headers E (APIKey (creds s))) bin.

(** An endpoint and a library under which every upload goes through. *)
Definition accepting (E : Env) : Prop :=
  (forall m u, NewRequest_check E m u = None) /\
  (forall history req,
      exists resp bin r,
        client_Do E history req = inr resp /\
        resp_Body resp = inr bin /\
        resp_StatusCode resp = StatusOK /\
        json_Unmarshal E bin = inr r).

(** The summary line of the deferred function. *)
Definition skipped_entry : LogEntry :=
  mkLog Verbose
        "Scan results upload to cloud skipped, no results found to upload"
        [] None.

(** A line as [ReadString] returns it: no delimiter but the last byte. *)
Definition is_line (l : bytes) : Prop :=
  exists body, l = body ++ [x0a] /\ Forall (fun c => c <> x0a) body.

(** A library under which no request can be built. *)
Definition env_no_request : Env :=
  mkEnv "X-Api-Key" "utm_source=nuclei" sample_Parse None
        (fun _ _ => Some (Errorf "invalid method" []))
        (fun _ req => ok_with "s1" req)
        sample_Unmarshal sample_dashboard.

(** ** protocolinit (the file without a name)

    [Init] calls the [Init] of seven packages in turn and returns the
    first error.  What each of them does is outside; the model keeps their
    verdicts as a function and records the calls made, in order. *)
Module protocolinit.

Inductive Package : Type :=
| protocolstate
| dnsclientpool
| httpclientpool
| signerpool
| networkclientpool
| rdapclientpool
| compiler.

Definition Calls : Type := list Package.

Section Init.

Variable Options : Type.
Variable init : Package -> Options -> option error.

(** [p.Init(options)] *)
Definition call (p : Package) (options : Options) (tr : Calls)
  : option error * Calls :=
  (init p options, tr ++ [p]).

(** [if err := ...; err != nil { return err }] followed by [k]. *)
Definition orReturn (r : option error * Calls)
           (k : Calls -> option error * Calls) : option error * Calls :=
  match r with
  | (Some err, tr) => (Some err, tr)
  | (None, tr) => k tr
  end.

Definition Init (options : Options) (tr : Calls) : option error * Calls :=
  orReturn (call protocolstate options tr) (fun tr =>
  orReturn (call dnsclientpool options tr) (fun tr =>
  orReturn (call httpclientpool options tr) (fun tr =>
  orReturn (call signerpool options tr) (fun tr =>
  orReturn (call networkclientpool options tr) (fun tr =>
  orReturn (call rdapclientpool options tr) (fun tr =>
  orReturn (call compiler options tr) (fun tr =>
  (None, tr)))))))).

End Init.

(** The packages in the order [Init] goes through them. *)
Definition order : list Package :=
  [protocolstate; dnsclientpool; httpclientpool; signerpool;
   networkclientpool; rdapclientpool; compiler].

(** The first error among the verdicts of [ps], with the calls made. *)
Fixpoint first_error {Options : Type} (init : Package -> Options -> option error)
         (options : Options) (ps : list Package) (tr : Calls)
  : option error * Calls :=
  match ps with
  | [] => (None, tr)
  | p :: rest =>
      match init p options with
      | Some err => (Some err, tr ++ [p])
      | None => first_error init options rest (tr ++ [p])
      end
  end.

Definition sample_init (p : Package) (o : unit) : option error :=
  match p with
  | signerpool => Some (Errorf "signer failed" [])
  | rdapclientpool => Some (Errorf "rdap failed" [])
  | _ => None
  end.

End protocolinit.

(** ** httputils.GetInteractshURLSFromEvent

    The event map is given by its entries in the order the [range] visits
    them, the set of URLs by its keys in the order they were first added;
    [types.ToString] is outside. *)
Module httputils.

Section Event.

Variable value : Type.
Variable ToString : value -> string.

(** [interactshUrls[k] = struct{}{}] *)
Definition set_add (k : string) (set : list string) : list string :=
  if existsb (String.eqb k) set then set else set ++ [k].

Fixpoint range (event : list (string * value)) (interactshUrls : list string)
  : list string :=
  match event with
  | [] => interactshUrls
  | (k, v) :: rest =>
      range rest
            (if String.prefix "interactsh-url" k
             then set_add (ToString v) interactshUrls
             else interactshUrls)
  end.

Definition GetInteractshURLSFromEvent (event : list (string * value))
  : list string :=
  range event [].

End Event.

End httputils.

(** ** helpers/writer.WriteResult

    The calls made on the output writer, the progress and the issue
    tracker are recorded in order; what [CreateIssue] and [Write] return
    is outside and may depend on the calls made so far. *)
Module writer.

Section WriteResult.

Variable ResultEvent : Type.

Record InternalWrappedEvent : Type := mkEvent {
  HasOperatorResult : bool;
  Results : list ResultEvent
}.

Inductive Effect : Type :=
| CallCreateIssue (r : ResultEvent)
| CallWrite (r : ResultEvent)
| LogWarning (format : string) (err : error)
| CallIncrementMatched.

Definition Trace : Type := list Effect.

(** [output.Write]; [issuesClient] is [None] for the nil interface. *)
Variable output_Write : Trace -> ResultEvent -> option error.
Variable issuesClient : option (Trace -> ResultEvent -> option error).

(** The body of the [for _, result := range data.Results]. *)
Definition body (result : ResultEvent) (matched : bool) (tr : Trace)
  : bool * Trace :=
  let tr :=
    match issuesClient with
    | Some CreateIssue =>
        match CreateIssue tr result with
        | Some err =>
            tr ++ [CallCreateIssue result;
                   LogWarning "Could not create issue on tracker: %s" err]
        | None => tr ++ [CallCreateIssue result]
        end
    | None => tr
    end in
  let tr :=
    match output_Write tr result with
    | Some err =>
        tr ++ [CallWrite result;
               LogWarning "Could not write output event: %s\n" err]
    | None => tr ++ [CallWrite result]
    end in
  let matched := if negb matched then true else matched in
  (matched, tr ++ [CallIncrementMatched]).

Fixpoint range (results : list ResultEvent) (matched : bool) (tr : Trace)
  : bool * Trace :=
  match results with
  | [] => (matched, tr)
  | result :: rest =>
      let '(matched, tr) := body result matched tr in
      range rest matched tr
  end.

Definition WriteResult (data : InternalWrappedEvent) (tr : Trace)
  : bool * Trace :=
  if negb (HasOperatorResult data)
  then (false, tr)
  else range (Results data) false tr.

Definition is_write (e : Effect) : bool :=
  match e with CallWrite _ => true | _ => false end.

Definition is_issue (e : Effect) : bool :=
  match e with CallCreateIssue _ => true | _ => false end.

Definition is_increment (e : Effect) : bool :=
  match e with CallIncrementMatched => true | _ => false end.

Definition is_call (e : Effect) : bool :=
  match e with LogWarning _ _ => false | _ => true end.

(** The calls one result gives rise to, in order. *)
Definition calls_for (result : ResultEvent) : Trace :=
  match issuesClient with
  | Some _ => [CallCreateIssue result; CallWrite result; CallIncrementMatched]
  | None => [CallWrite result; CallIncrementMatched]
  end.

End WriteResult.

End writer.

(** ** Request construction *)

Lemma Sprintf_appendEndpoint (id : string) :
  Sprintf appendEndpoint id = ("/v1/scans/" ++ id ++ "/import")%string.
Proof. reflexivity. Qed.

Lemma getRequest_eq (E : Env) (bin : bytes) (s : State) :
  getRequest E bin s =
  let s' := set_uploadURL (set_Path (request_path (scanID s)) (uploadURL s)) s in
  match NewRequest_check E (request_method (scanID s)) (URL_String (uploadURL s')) with
  | Some err =>
      (inl (NewWithErr err "could not create cloud upload request" []), s')
  | None =>
      (inr (mkRequest (request_method (scanID s))
                      (set_RawQuery (GetpdtmParams E) (uploadURL s'))
                      (request_headers E (APIKey (creds s))) bin), s')
  end.
Proof.
  unfold getRequest, NewRequest, request_path, request_method, request_headers,
    bind, orWrap, lift, gets, modify, ret.
  destruct (scanID s =? "")%string; cbn [uploadURL set_uploadURL creds];
    match goal with
    | |- context [NewRequest_check E ?m ?u] => destruct (NewRequest_check E m u)
    end; reflexivity.
Qed.

Lemma getRequest_frame (E : Env) (bin : bytes) (s : State) :
  let s' := snd (getRequest E bin s) in
  creds s' = creds s /\ scanID s' = scanID s /\ counter s' = counter s /\
  buff s' = buff s /\ sent s' = sent s /\ logs s' = logs s /\ done s' = done s /\
  Scheme (uploadURL s') = Scheme (uploadURL s) /\
  Host (uploadURL s') = Host (uploadURL s).
Proof.
  rewrite getRequest_eq; cbv zeta.
  destruct (NewRequest_check E _ _); cbn; repeat split; reflexivity.
Qed.

(** ** The exchange with the endpoint *)

Lemma upload_eq (E : Env) (data : bytes) (s : State) :
  upload E data s =
  match getRequest E data s with
  | (inl err, s1) =>
      (inl (NewWithErr err "could not create upload request" []), s1)
  | (inr req, s1) =>
      let s2 := push_sent req s1 in
      match client_Do E (sent s1) req with
      | inl err => (inl (NewWithErr err "could not upload results" []), s2)
      | inr resp =>
          match resp_Body resp with
          | inl err =>
              (inl (NewWithErr err "could not get id from response" []), s2)
          | inr bin =>
              if resp_StatusCode resp =? StatusOK
              then match json_Unmarshal E bin with
                   | inl err =>
                       (inl (NewWithErr err "could not unmarshal response got %v"
                                        [ArgBytes bin]), s2)
                   | inr r => (inr tt, adopt r s2)
                   end
              else (inl (status_error resp), s2)
          end
      end
  end.
Proof.
  unfold upload, Do, adopt, status_error, bind, orWrap, lift, gets, modify, ret, fail.
  destruct (getRequest E data s) as [[err|req] s1]; [reflexivity|].
  destruct (client_Do E (sent s1) req) as [err|resp]; [reflexivity|].
  destruct (resp_Body resp) as [err|bin]; [reflexivity|].
  destruct (resp_StatusCode resp =? StatusOK); cbn [negb]; [|reflexivity].
  destruct (json_Unmarshal E bin) as [err|r]; [reflexivity|].
  destruct (negb (ID r =? "")%string && (scanID (push_sent req s1) =? "")%string)%bool;
    reflexivity.
Qed.

Lemma adopt_frame (r : uploadResponse) (s : State) :
  creds (adopt r s) = creds s /\ uploadURL (adopt r s) = uploadURL s /\
  counter (adopt r s) = counter s /\ buff (adopt r s) = buff s /\
  sent (adopt r s) = sent s /\ logs (adopt r s) = logs s /\
  done (adopt r s) = done s.
Proof. unfold adopt; destruct (_ && _)%bool; cbn; repeat split; reflexivity. Qed.

(** What [upload] leaves alone. *)
Lemma upload_frame (E : Env) (data : bytes) (s : State) :
  let s' := snd (upload E data s) in
  creds s' = creds s /\ counter s' = counter s /\ buff s' = buff s /\
  logs s' = logs s /\ done s' = done s /\
  Scheme (uploadURL s') = Scheme (uploadURL s) /\
  Host (uploadURL s') = Host (uploadURL s).
Proof.
  rewrite upload_eq.
  pose proof (getRequest_frame E data s) as F; cbv zeta in F.
  destruct (getRequest E data s) as [[err|req] s1]; cbn [snd] in *.
  - intuition congruence.
  - destruct (client_Do E (sent s1) req) as [err|resp]; [cbn; intuition congruence|].
    destruct (resp_Body resp) as [err|bin]; [cbn; intuition congruence|].
    destruct (resp_StatusCode resp =? StatusOK); [|cbn; intuition congruence].
    destruct (json_Unmarshal E bin) as [err|r]; [cbn; intuition congruence|].
    cbn [snd]. pose proof (adopt_frame r (push_sent req s1)) as A.
    cbn in A |- *. destruct A as (A1 & A2 & A3 & A4 & A5 & A6 & A7).
    rewrite A1, A2, A3, A4, A6, A7. intuition congruence.
Qed.

Lemma uploadChunk_eq (E : Env) (s : State) :
  uploadChunk E s =
  match upload E (buff s) s with
  | (inl err, s1) => (inl (NewWithErr err "could not upload chunk" []), s1)
  | (inr _, s1) =>
      (inr tt,
       push_log (mkLog Warning
                       "Uploaded results chunk, you can view scan results at %v"
                       [ArgStr (getScanDashBoardURL E (scanID s1))] None)
                (set_buff [] s1))
  end.
Proof.
  unfold uploadChunk, logf, bind, orWrap, gets, modify.
  destruct (upload E (buff s) s) as [[err|u] s1]; reflexivity.
Qed.

(** ** The scheduler *)

Lemma flush_eq (E : Env) (s : State) :
  flush E s =
  match uploadChunk E s with
  | (inl err, s1) => (inr tt, push_log (failed_entry err) s1)
  | (inr _, s1) => (inr tt, s1)
  end.
Proof.
  unfold flush, orElse, logf, modify, failed_entry.
  destruct (uploadChunk E s) as [[err|[]] s1]; reflexivity.
Qed.

(** A flush hands the error to the logger: the loop never sees it. *)
Lemma flush_returns (E : Env) (s : State) : fst (flush E s) = inr tt.
Proof.
  rewrite flush_eq. destruct (uploadChunk E s) as [[err|u] s1]; reflexivity.
Qed.

(** After a flush the buffer is empty (the upload went through) or what it
    was (it did not). *)
Lemma flush_buff (E : Env) (s : State) :
  buff (snd (flush E s)) = [] \/ buff (snd (flush E s)) = buff s.
Proof.
  rewrite flush_eq, uploadChunk_eq.
  pose proof (upload_frame E (buff s) s) as F; cbv zeta in F.
  destruct (upload E (buff s) s) as [[err|u] s1]; cbn in *.
  - right. intuition congruence.
  - left. reflexivity.
Qed.

Lemma flushNonEmpty_eq (E : Env) (s : State) :
  flushNonEmpty E s = if len (buff s) >? 0 then flush E s else (inr tt, s).
Proof.
  unfold flushNonEmpty, bind, gets, ret.
  destruct (len (buff s) >? 0); reflexivity.
Qed.

Lemma select_recv_fits (E : Env) (line : bytes) (s : State) :
  len (buff s) + len line <= MaxChunkSize ->
  select E (ch_recv line) s = (inr Continue, WriteString line s).
Proof.
  intros H. unfold select, bind, gets, modify, ret.
  destruct (Z.gtb_spec (len (buff s) + len line) MaxChunkSize); [lia|reflexivity].
Qed.

Lemma select_recv_overflow (E : Env) (line : bytes) (s : State) :
  len (buff s) + len line > MaxChunkSize ->
  select E (ch_recv line) s = (inr Continue, snd (flush E s)).
Proof.
  intros H. unfold select, bind, gets, modify, ret.
  destruct (Z.gtb_spec (len (buff s) + len line) MaxChunkSize); [|lia].
  pose proof (flush_returns E s) as R.
  destruct (flush E s) as [[err|u] s1]; cbn in *; [discriminate|reflexivity].
Qed.

(** On the overflow path the incoming record does not reach the buffer:
    the buffer ends up empty or as it was. *)
Lemma select_recv_overflow_buff (E : Env) (line : bytes) (s : State) :
  len (buff s) + len line > MaxChunkSize ->
  buff (snd (select E (ch_recv line) s)) = [] \/
  buff (snd (select E (ch_recv line) s)) = buff s.
Proof.
  intros H. rewrite select_recv_overflow by exact H. apply flush_buff.
Qed.

(** [select] always comes back with a verdict. *)
Lemma select_returns (E : Env) (ev : Event) (s : State) :
  exists c, fst (select E ev s) = inr c.
Proof.
  destruct ev; unfold select, bind, gets, modify, ret.
  1-2,4: (pose proof (flush_returns E s) as R; rewrite flushNonEmpty_eq;
          destruct (len (buff s) >? 0);
          [destruct (flush E s) as [[err|u] s1]; cbn in *;
           [discriminate|eexists; reflexivity]
          |eexists; reflexivity]).
  destruct (len (buff s) + len line >? MaxChunkSize).
  - pose proof (flush_returns E s) as R.
    destruct (flush E s) as [[err|u] s1]; cbn in *;
      [discriminate|eexists; reflexivity].
  - eexists; reflexivity.
Qed.

Lemma loop_cons (E : Env) (ev : Event) (rest : list Event) (s : State) :
  loop E (ev :: rest) s =
  match select E ev s with
  | (inl err, s1) => (inl err, s1)
  | (inr Continue, s1) => loop E rest s1
  | (inr Return, s1) => (inr Return, s1)
  end.
Proof.
  cbn [loop]. unfold bind, ret.
  destruct (select E ev s) as [[err|[|]] s1]; reflexivity.
Qed.

Lemma loop_returns (E : Env) (evs : list Event) (s : State) :
  exists c, fst (loop E evs s) = inr c.
Proof.
  revert s. induction evs as [|ev rest IH]; intros s.
  - exists Continue. reflexivity.
  - rewrite loop_cons. destruct (select_returns E ev s) as [c Hc].
    destruct (select E ev s) as [[err|[|]] s1]; cbn in Hc; try discriminate.
    + apply IH.
    + exists Return. reflexivity.
Qed.

Lemma len_nonneg (b : bytes) : 0 <= len b.
Proof. unfold len. lia. Qed.

Lemma len_app (a b : bytes) : len (a ++ b) = len a + len b.
Proof. unfold len. rewrite length_app. lia. Qed.

Lemma len_nil : len [] = 0.
Proof. reflexivity. Qed.

Lemma MaxChunkSize_eq : MaxChunkSize = 4194304.
Proof. reflexivity. Qed.



(** Records that fit are only appended. *)
Lemma loop_records_fit (E : Env) (lines : list bytes) (s : State) :
  len (buff s) + len (List.concat lines) <= MaxChunkSize ->
  loop E (map ch_recv lines) s =
  (inr Continue, set_buff (buff s ++ List.concat lines) s).
Proof.
  revert s. induction lines as [|l lines IH]; intros s H.
  - cbn. rewrite app_nil_r. destruct s; reflexivity.
  - cbn [map List.concat] in *. rewrite len_app in H.
    pose proof (len_nonneg (List.concat lines)).
    rewrite loop_cons, select_recv_fits by lia.
    rewrite IH by (unfold WriteString; cbn [buff set_buff]; rewrite len_app; lia).
    cbn. rewrite <- app_assoc. reflexivity.
Qed.

(** ** The scan id along the way *)

Lemma adopt_keeps (r : uploadResponse) (s : State) :
  scanID s <> "" -> scanID (adopt r s) = scanID s.
Proof.
  intros H. unfold adopt.
  destruct (String.eqb_spec (scanID s) ""); [contradiction|].
  rewrite andb_false_r. reflexivity.
Qed.

Lemma upload_keeps_scanID (E : Env) (data : bytes) (s : State) :
  scanID s <> "" -> scanID (snd (upload E data s)) = scanID s.
Proof.
  intros H. rewrite upload_eq.
  pose proof (getRequest_frame E data s) as F; cbv zeta in F.
  destruct (getRequest E data s) as [[err|req] s1]; cbn [snd] in *.
  - intuition congruence.
  - destruct F as (_ & F & _).
    destruct (client_Do E (sent s1) req) as [err|resp]; [exact F|].
    destruct (resp_Body resp) as [err|bin]; [exact F|].
    destruct (resp_StatusCode resp =? StatusOK); [|exact F].
    destruct (json_Unmarshal E bin) as [err|r]; [exact F|].
    cbn [snd]. rewrite adopt_keeps; cbn; congruence.
Qed.

Lemma flush_keeps_scanID (E : Env) (s : State) :
  scanID s <> "" -> scanID (snd (flush E s)) = scanID s.
Proof.
  intros H. rewrite flush_eq, uploadChunk_eq.
  pose proof (upload_keeps_scanID E (buff s) s H) as U.
  destruct (upload E (buff s) s) as [[err|u] s1]; exact U.
Qed.

Lemma select_keeps_scanID (E : Env) (ev : Event) (s : State) :
  scanID s <> "" -> scanID (snd (select E ev s)) = scanID s.
Proof.
  intros H.
  pose proof (flush_keeps_scanID E s H) as F.
  assert (N : scanID (snd (flushNonEmpty E s)) = scanID s).
  { rewrite flushNonEmpty_eq. destruct (len (buff s) >? 0); [exact F|reflexivity]. }
  destruct ev as [| |line|].
  1-2,4: (unfold select, bind, ret;
          destruct (flushNonEmpty E s) as [[err|u] s1]; exact N).
  destruct (Z_le_gt_dec (len (buff s) + len line) MaxChunkSize) as [Hle|Hgt].
  - rewrite select_recv_fits by exact Hle. reflexivity.
  - rewrite select_recv_overflow by exact Hgt. exact F.
Qed.

Lemma exec_keeps_scanID (E : Env) (evs : list Event) (s : State) :
  scanID s <> "" -> scanID (exec E evs s) = scanID s.
Proof.
  unfold exec. revert s. induction evs as [|ev rest IH]; intros s H.
  - reflexivity.
  - rewrite loop_cons. pose proof (select_keeps_scanID E ev s H) as K.
    destruct (select E ev s) as [[err|[|]] s1]; cbn [snd] in *; auto.
    rewrite IH; congruence.
Qed.

(** ** Large records *)

Lemma len_record_of (n : Z) : 1 <= n -> len (record_of n) = n.
Proof.
  intros H. unfold record_of. rewrite len_app. unfold len.
  rewrite repeat_length. cbn [List.length]. lia.
Qed.

Lemma collector_line (body rest data : bytes) (s : State) :
  Forall (fun c => c <> x0a) body ->
  collector data (body ++ x0a :: rest) s =
  let '(q, s') := collector [] rest (set_counter (Int32_Add (counter s) 1) s) in
  ((data ++ body ++ [x0a]) :: q, s').
Proof.
  intros H. revert data. induction H as [|c body Hc _ IH]; intros data.
  - reflexivity.
  - cbn [app collector].
    destruct (Byte.eqb c x0a) eqn:Eq.
    + apply Byte.byte_dec_bl in Eq. contradiction.
    + rewrite IH, <- app_assoc. reflexivity.
Qed.

Lemma collector_record_of (n : Z) (rest data : bytes) (s : State) :
  collector data (record_of n ++ rest) s =
  let '(q, s') := collector [] rest (set_counter (Int32_Add (counter s) 1) s) in
  ((data ++ record_of n) :: q, s').
Proof.
  unfold record_of. rewrite <- app_assoc. cbn [app].
  apply collector_line. apply Forall_forall. intros c Hc.
  apply repeat_spec in Hc. subst c. discriminate.
Qed.

(** ** Runs against the sample endpoints *)

Lemma sample_Unmarshal_id :
  sample_Unmarshal (list_byte_of_string (json_id "s1")) = inr (mkUploadResponse "s1").
Proof. vm_compute. reflexivity. Qed.

Lemma env_ok_flush (s : State) :
  buff (snd (flush env_ok s)) = [] /\
  map req_Body (sent (snd (flush env_ok s))) = map req_Body (sent s) ++ [buff s] /\
  done (snd (flush env_ok s)) = done s.
Proof.
  rewrite flush_eq, uploadChunk_eq, upload_eq, getRequest_eq. cbv zeta.
  cbn [env_ok sample_env NewRequest_check client_Do json_Unmarshal ok_with
       resp_Body resp_StatusCode].
  rewrite sample_Unmarshal_id. cbn [Z.eqb StatusOK Pos.eqb snd].
  match goal with
  | |- context [adopt ?r ?st] =>
      pose proof (adopt_frame r st) as (_ & _ & _ & _ & A & _ & D)
  end.
  cbn [buff sent done push_log set_buff]. rewrite A, D.
  cbn [sent done push_sent set_uploadURL]. rewrite map_app. cbn [map req_Body].
  repeat split; reflexivity.
Qed.

Lemma env_down_flush (s : State) :
  buff (snd (flush env_down s)) = buff s.
Proof.
  rewrite flush_eq, uploadChunk_eq, upload_eq, getRequest_eq. cbv zeta.
  cbn [env_down sample_env NewRequest_check client_Do]. reflexivity.
Qed.

(** What [NewUploadWriter] hands to [autoCommit]. *)
Lemma NewUploadWriter_fresh (E : Env) (c : option PDCPCredentials) (s0 : State) :
  NewUploadWriter E c = inr s0 ->
  c = Some (creds s0) /\ scanID s0 = "" /\ buff s0 = [] /\ sent s0 = [] /\
  Path (uploadURL s0) = uploadEndpoint.
Proof.
  unfold NewUploadWriter. intros H.
  destruct c as [cr|]; [|discriminate].
  destruct (output_NewWriter E); [discriminate|].
  destruct (urlutil_Parse E (Server cr)); [discriminate|].
  injection H as <-. repeat split; reflexivity.
Qed.

(** ** The claims about the scheduler *)

(** C7.  Lazy batching: starting from a buffer [buff s], records whose
    bytes together with the buffer stay within [MaxChunkSize] are all
    appended, in order, and while only such records arrive (no tick, no
    cancellation, no end of stream) the loop keeps running without
    handing any request to the client and without logging a flush. *)
Theorem lazy_batching (E : Env) (lines : list bytes) (s : State) :
  len (buff s) + len (List.concat lines) <= MaxChunkSize ->
  fst (loop E (map ch_recv lines) s) = inr Continue /\
  sent (exec E (map ch_recv lines) s) = sent s /\
  logs (exec E (map ch_recv lines) s) = logs s /\
  buff (exec E (map ch_recv lines) s) = buff s ++ List.concat lines.
Proof.
  intros H. unfold exec. rewrite (loop_records_fit E lines s H).
  repeat split; reflexivity.
Qed.

Lemma lazy_batching_witness :
  len (buff sample_state)
    + len (List.concat [list_byte_of_string "abc"; list_byte_of_string "de"])
    <= MaxChunkSize /\
  sent (exec env_ok
          (map ch_recv [list_byte_of_string "abc"; list_byte_of_string "de"])
          sample_state) = [].
Proof.
  assert (H : len (buff sample_state)
              + len (List.concat [list_byte_of_string "abc"; list_byte_of_string "de"])
              <= MaxChunkSize) by (vm_compute; discriminate).
  split; [exact H|].
  exact (proj1 (proj2 (lazy_batching env_ok _ sample_state H))).
Defined.




Lemma exec_one (E : Env) (ev : Event) (s : State) :
  exec E [ev] s = snd (select E ev s).
Proof.
  unfold exec. rewrite loop_cons.
  destruct (select E ev s) as [[err|[|]] s1]; reflexivity.
Qed.

(** C1 at a failing input.  The buffer holds one record of 3 MiB and a
    second record of 3 MiB arrives: the sum exceeds [MaxChunkSize], the
    existing buffer is flushed without the new record, and the new record
    is not written to the buffer.  With an endpoint that accepts the
    upload the buffer is left empty; with one that refuses it the buffer
    is left as it was. *)
Theorem overflowing_record_not_accepted :
  len (buff (WriteString big_record sample_state)) + len big_record > MaxChunkSize /\
  map req_Body
      (sent (exec env_ok [ch_recv big_record] (WriteString big_record sample_state)))
    = [big_record] /\
  buff (exec env_ok [ch_recv big_record] (WriteString big_record sample_state)) = [] /\
  buff (exec env_down [ch_recv big_record] (WriteString big_record sample_state))
    = big_record.
Proof.
  assert (Hb : buff (WriteString big_record sample_state) = big_record)
    by reflexivity.
  assert (Hr : len big_record = 3145728) by (apply len_record_of; lia).
  assert (Hgt : len (buff (WriteString big_record sample_state)) + len big_record
                > MaxChunkSize).
  { rewrite Hb, Hr, MaxChunkSize_eq. lia. }
  split; [exact Hgt|].
  rewrite !exec_one, !select_recv_overflow by exact Hgt. cbn [snd].
  destruct (env_ok_flush (WriteString big_record sample_state)) as (B & S & _).
  rewrite B, S, env_down_flush, Hb. repeat split; reflexivity.
Qed.

Lemma select_closed_empty (E : Env) (s : State) :
  buff s = [] -> select E ch_closed s = (inr Return, s).
Proof.
  intros H. unfold select, bind, ret. rewrite flushNonEmpty_eq, H. reflexivity.
Qed.

Lemma deferred_frame (E : Env) (s : State) :
  fst (deferred E s) = inr tt /\
  buff (snd (deferred E s)) = buff s /\
  sent (snd (deferred E s)) = sent s /\
  done (snd (deferred E s)) = S (done s).
Proof.
  unfold deferred, logf, bind, gets, modify.
  cbn [scanID signal_done]. destruct (scanID s =? "")%string;
    repeat split; reflexivity.
Qed.

(** Two records that each fit but do not fit together, then the end of
    the stream, against an endpoint that accepts everything. *)
Lemma two_records_run (r : bytes) (s0 : State) :
  buff s0 = [] ->
  len r <= MaxChunkSize ->
  len r + len r > MaxChunkSize ->
  let s' := snd (autoCommit env_ok (ch_events [r; r]) s0) in
  map req_Body (sent s') = map req_Body (sent s0) ++ [r] /\
  buff s' = [] /\ done s' = S (done s0).
Proof.
  intros Hb Hle Hgt.
  assert (H1 : len (buff s0) + len r <= MaxChunkSize)
    by (rewrite Hb, len_nil; lia).
  assert (H2 : len (buff (WriteString r s0)) + len r > MaxChunkSize).
  { unfold WriteString. cbn [buff set_buff]. rewrite Hb. cbn [app]. exact Hgt. }
  destruct (env_ok_flush (WriteString r s0)) as (B & S & D).
  unfold autoCommit, ch_events, bind. cbn [map app].
  rewrite loop_cons, (select_recv_fits _ _ _ H1).
  rewrite loop_cons, (select_recv_overflow _ _ _ H2).
  rewrite loop_cons, (select_closed_empty _ _ B).
  destruct (deferred_frame env_ok (snd (flush env_ok (WriteString r s0))))
    as (_ & B' & S' & D').
  cbv zeta. rewrite B', S', D', B, S, D.
  unfold WriteString. cbn [buff sent done set_buff]. rewrite Hb.
  repeat split; reflexivity.
Qed.

(** C2 at a failing input.  The stream carries two records of 3 MiB.  The
    collector counts and sends both, the channel is closed and the run
    ends with the completion signal; the only request body is the first
    record and the buffer is empty: the second record is in no chunk. *)
Theorem second_record_never_uploaded :
  fst (collector [] (big_record ++ big_record) sample_state)
    = [big_record; big_record] /\
  counter (snd (collector [] (big_record ++ big_record) sample_state)) = 2 /\
  map req_Body
      (sent (snd (autoCommit env_ok
                    (ch_events (fst (collector [] (big_record ++ big_record)
                                               sample_state)))
                    (snd (collector [] (big_record ++ big_record) sample_state)))))
    = [big_record] /\
  buff (snd (autoCommit env_ok
               (ch_events (fst (collector [] (big_record ++ big_record)
                                          sample_state)))
               (snd (collector [] (big_record ++ big_record) sample_state))))
    = [] /\
  done (snd (autoCommit env_ok
               (ch_events (fst (collector [] (big_record ++ big_record)
                                          sample_state)))
               (snd (collector [] (big_record ++ big_record) sample_state))))
    = 1%nat.
Proof.
  assert (Hr : len big_record = 3145728) by (apply len_record_of; lia).
  assert (P : collector [] (big_record ++ big_record) sample_state =
              ([big_record; big_record],
               set_counter 2 (set_counter 1 sample_state))).
  { unfold big_record.
    rewrite <- (app_nil_r (record_of (3 * 1024 * 1024))) at 2.
    rewrite !collector_record_of. reflexivity. }
  rewrite P. cbn [fst snd].
  split; [reflexivity|]. split; [reflexivity|].
  apply (two_records_run big_record (set_counter 2 (set_counter 1 sample_state))).
  - reflexivity.
  - rewrite Hr, MaxChunkSize_eq. lia.
  - rewrite Hr, MaxChunkSize_eq. lia.
Qed.

(** ** The claims about the exchange *)

Lemma Header_Get_Set_same (k v : string) (h : Header) :
  Header_Get k (Header_Set k v h) = v.
Proof. unfold Header_Set. cbn [Header_Get]. rewrite String.eqb_refl. reflexivity. Qed.

Lemma Header_Get_Set_other (k k' v : string) (h : Header) :
  k' <> k -> Header_Get k' (Header_Set k v h) = Header_Get k' h.
Proof.
  intros H. unfold Header_Set. cbn [Header_Get].
  destruct (String.eqb_spec k k') as [->|_]; [contradiction|].
  induction h as [|[a b] h IH]; [reflexivity|].
  cbn [filter fst negb]. destruct (String.eqb_spec a k) as [->|Hak]; cbn [negb Header_Get].
  - destruct (String.eqb_spec k k') as [->|_]; [contradiction|exact IH].
  - destruct (a =? k')%string; [reflexivity|exact IH].
Qed.



(** C10.  [upload] reads the whole body before it looks at the status
    code.  When the client returned a response whose body cannot be read,
    [upload] returns the read error wrapped as "could not get id from
    response", whatever the status code; and [upload] returns the error
    that carries the status code and the URL exactly when the body was
    read and the status is not 200. *)
Theorem upload_reads_body_first
  (E : Env) (data : bytes) (s s1 : State) (req : Request) (resp : Response) :
  getRequest E data s = (inr req, s1) ->
  client_Do E (sent s1) req = inr resp ->
  (forall err,
      resp_Body resp = inl err ->
      fst (upload E data s) =
      inl (NewWithErr err "could not get id from response" [])) /\
  (fst (upload E data s) = inl (status_error resp) <->
   (exists bin, resp_Body resp = inr bin) /\ resp_StatusCode resp <> StatusOK).
Proof.
  intros Hreq Hdo. rewrite upload_eq, Hreq. cbv zeta. rewrite Hdo. split.
  - intros err Hb. rewrite Hb. reflexivity.
  - destruct (resp_Body resp) as [err|bin].
    + split; [discriminate|]. intros [[bin Hb] _]. discriminate.
    + destruct (Z.eqb_spec (resp_StatusCode resp) StatusOK) as [Hok|Hno].
      * split.
        -- destruct (json_Unmarshal E bin); discriminate.
        -- intros [_ Hs]. contradiction.
      * split; [|reflexivity]. intros _. split; [exists bin; reflexivity|exact Hno].
Qed.

Lemma upload_reads_body_first_witness :
  fst (upload env_broken_body [x0a] sample_state) =
  inl (NewWithErr (Errorf "unexpected EOF" []) "could not get id from response" []).
Proof.
  assert (Hreq : getRequest env_broken_body [x0a] sample_state =
                 (inr sample_post, sample_state)) by reflexivity.
  assert (Hdo : client_Do env_broken_body (sent sample_state) sample_post =
                inr (mkResponse 500 (inl (Errorf "unexpected EOF" [])) sample_post))
    by reflexivity.
  exact (proj1 (upload_reads_body_first env_broken_body [x0a] sample_state
                  sample_state sample_post _ Hreq Hdo)
               (Errorf "unexpected EOF" []) eq_refl).
Defined.

(** C9.  [SetScanID] stores its argument whatever the state holds, the
    state after an upload that adopted an identifier included: the guard
    on an identifier already set is in [upload] only. *)
Theorem SetScanID_overwrites
  (E : Env) (id : string) (data : bytes) (s : State) :
  scanID (SetScanID id s) = id /\
  scanID (SetScanID id (snd (upload E data s))) = id.
Proof. split; reflexivity. Qed.

Lemma WriteStrings_buff (lines : list bytes) (s : State) :
  buff (WriteStrings lines s) = buff s ++ List.concat lines.
Proof.
  unfold WriteStrings. revert s.
  induction lines as [|l lines IH]; intros s; cbn [fold_left List.concat].
  - rewrite app_nil_r. reflexivity.
  - rewrite IH. unfold WriteString. cbn [buff set_buff].
    rewrite app_assoc. reflexivity.
Qed.

Lemma WriteStrings_sent (lines : list bytes) (s : State) :
  sent (WriteStrings lines s) = sent s.
Proof.
  unfold WriteStrings. revert s.
  induction lines as [|l lines IH]; intros s; cbn [fold_left]; [reflexivity|].
  rewrite IH. reflexivity.
Qed.

(** A successful [upload] hands exactly one request to the client, with
    the data as its body. *)
Lemma upload_ok_sent (E : Env) (data : bytes) (s s' : State) :
  upload E data s = (inr tt, s') ->
  exists req, sent s' = sent s ++ [req] /\ req_Body req = data.
Proof.
  rewrite upload_eq, getRequest_eq. cbv zeta.
  destruct (NewRequest_check E _ _); [discriminate|].
  cbn [sent set_uploadURL].
  destruct (client_Do E _ _) as [err|resp]; [discriminate|].
  destruct (resp_Body resp) as [err|bin]; [discriminate|].
  destruct (resp_StatusCode resp =? StatusOK); [|discriminate].
  destruct (json_Unmarshal E bin) as [err|r]; [discriminate|].
  intros H. injection H as <-.
  match goal with
  | |- context [adopt ?r ?st] =>
      destruct (adopt_frame r st) as (_ & _ & _ & _ & A & _)
  end.
  rewrite A. eexists. split; reflexivity.
Qed.

(** C4.  [uploadChunk] empties the buffer when [upload] succeeds and
    leaves its bytes as they were when [upload] fails; a transport error,
    a status other than 200 and a body that does not decode each make
    [uploadChunk] return an error; and when a failed flush is followed by
    further writes and then by a flush that succeeds, that flush sends
    one request whose body is the bytes the buffer held at the failure
    followed by the bytes written since, in order, and empties the
    buffer. *)
Theorem uploadChunk_retains_on_failure (E : Env) (s : State) :
  (forall s', uploadChunk E s = (inr tt, s') -> buff s' = []) /\
  (forall err s', uploadChunk E s = (inl err, s') -> buff s' = buff s) /\
  (forall req s1,
      getRequest E (buff s) s = (inr req, s1) ->
      (forall err,
          client_Do E (sent s1) req = inl err ->
          fst (uploadChunk E s) =
          inl (NewWithErr (NewWithErr err "could not upload results" [])
                          "could not upload chunk" [])) /\
      (forall resp bin,
          client_Do E (sent s1) req = inr resp ->
          resp_Body resp = inr bin ->
          resp_StatusCode resp <> StatusOK ->
          fst (uploadChunk E s) =
          inl (NewWithErr (status_error resp) "could not upload chunk" [])) /\
      (forall resp bin err,
          client_Do E (sent s1) req = inr resp ->
          resp_Body resp = inr bin ->
          resp_StatusCode resp = StatusOK ->
          json_Unmarshal E bin = inl err ->
          fst (uploadChunk E s) =
          inl (NewWithErr
                 (NewWithErr err "could not unmarshal response got %v"
                             [ArgBytes bin])
                 "could not upload chunk" []))) /\
  (forall err s1 lines s2,
      uploadChunk E s = (inl err, s1) ->
      uploadChunk E (WriteStrings lines s1) = (inr tt, s2) ->
      buff s2 = [] /\
      exists req,
        sent s2 = sent s1 ++ [req] /\
        req_Body req = buff s ++ List.concat lines).
Proof.
  assert (Keep : forall err s', uploadChunk E s = (inl err, s') -> buff s' = buff s).
  { intros err s'. rewrite uploadChunk_eq.
    pose proof (upload_frame E (buff s) s) as F; cbv zeta in F.
    destruct (upload E (buff s) s) as [[e|u] s1]; [|discriminate].
    intros H. injection H as _ <-. cbn [snd] in F. intuition congruence. }
  split; [|split; [exact Keep|split]].
  - intros s'. rewrite uploadChunk_eq.
    destruct (upload E (buff s) s) as [[e|u] s1]; [discriminate|].
    intros H. injection H as <-. reflexivity.
  - intros req s1 Hreq. rewrite uploadChunk_eq, upload_eq, Hreq. cbv zeta.
    split; [|split].
    + intros err ->. reflexivity.
    + intros resp bin -> -> Hs.
      destruct (Z.eqb_spec (resp_StatusCode resp) StatusOK); [contradiction|reflexivity].
    + intros resp bin err -> -> -> ->. reflexivity.
  - intros err s1 lines s2 Hfail Hok.
    pose proof (Keep err s1 Hfail) as K.
    rewrite uploadChunk_eq in Hok.
    destruct (upload E (buff (WriteStrings lines s1)) (WriteStrings lines s1))
      as [[e|[]] s3] eqn:Hup; [discriminate|].
    injection Hok as <-. split; [reflexivity|].
    destruct (upload_ok_sent E _ _ _ Hup) as (req & Hs & Hb).
    exists req. cbn [sent push_log set_buff].
    rewrite Hs, Hb, WriteStrings_sent, WriteStrings_buff, K.
    split; reflexivity.
Qed.

Lemma uploadChunk_retains_on_failure_witness :
  uploadChunk env_fail_once sample_loaded =
    (inl refused_chunk, snd (uploadChunk env_fail_once sample_loaded)) /\
  fst (uploadChunk env_fail_once
         (WriteStrings [sample_line] (snd (uploadChunk env_fail_once sample_loaded))))
    = inr tt /\
  exists req,
    sent (snd (uploadChunk env_fail_once
                 (WriteStrings [sample_line]
                    (snd (uploadChunk env_fail_once sample_loaded))))) =
      sent (snd (uploadChunk env_fail_once sample_loaded)) ++ [req] /\
    req_Body req = buff sample_loaded ++ List.concat [sample_line].
Proof.
  assert (H1 : uploadChunk env_fail_once sample_loaded =
               (inl refused_chunk, snd (uploadChunk env_fail_once sample_loaded)))
    by (vm_compute; reflexivity).
  assert (H2 : uploadChunk env_fail_once
                 (WriteStrings [sample_line]
                    (snd (uploadChunk env_fail_once sample_loaded))) =
               (inr tt,
                snd (uploadChunk env_fail_once
                       (WriteStrings [sample_line]
                          (snd (uploadChunk env_fail_once sample_loaded))))))
    by (vm_compute; reflexivity).
  split; [exact H1|]. split; [rewrite H2; reflexivity|].
  exact (proj2 (proj2 (proj2 (proj2
           (uploadChunk_retains_on_failure env_fail_once sample_loaded)))
           _ _ _ _ H1 H2)).
Defined.

(** C5.  Through [upload] the scan id changes at most once.  An identifier
    already set survives [upload], and survives every run of the loop,
    whatever identifiers the responses carry.  When [upload] does change
    it, no identifier was set before, the call succeeded, and the new
    value is the non-empty identifier of the decoded 200 response; and a
    decoded 200 response with a non-empty identifier is adopted when none
    is set. *)
Theorem scanID_set_once (E : Env) (data : bytes) (s : State) :
  (scanID s <> "" -> scanID (snd (upload E data s)) = scanID s) /\
  (forall evs, scanID s <> "" -> scanID (exec E evs s) = scanID s) /\
  (scanID (snd (upload E data s)) <> scanID s ->
   scanID s = "" /\ scanID (snd (upload E data s)) <> "" /\
   fst (upload E data s) = inr tt /\
   exists req s1 resp bin r,
     getRequest E data s = (inr req, s1) /\
     client_Do E (sent s1) req = inr resp /\
     resp_Body resp = inr bin /\
     resp_StatusCode resp = StatusOK /\
     json_Unmarshal E bin = inr r /\
     ID r = scanID (snd (upload E data s))) /\
  (forall req s1 resp bin r,
      scanID s = "" ->
      getRequest E data s = (inr req, s1) ->
      client_Do E (sent s1) req = inr resp ->
      resp_Body resp = inr bin ->
      resp_StatusCode resp = StatusOK ->
      json_Unmarshal E bin = inr r ->
      ID r <> "" ->
      scanID (snd (upload E data s)) = ID r).
Proof.
  split; [apply upload_keeps_scanID|].
  split; [intros evs; apply exec_keeps_scanID|].
  split.
  - rewrite upload_eq.
    pose proof (getRequest_frame E data s) as F; cbv zeta in F.
    destruct (getRequest E data s) as [[err|req] s1]; cbn [snd] in *.
    { intros H. exfalso. apply H. intuition congruence. }
    destruct F as (_ & F & _).
    destruct (client_Do E (sent s1) req) as [err|resp] eqn:Hdo;
      [intros H; exfalso; apply H; exact F|].
    destruct (resp_Body resp) as [err|bin] eqn:Hb;
      [intros H; exfalso; apply H; exact F|].
    destruct (Z.eqb_spec (resp_StatusCode resp) StatusOK) as [Hok|Hno];
      [|intros H; exfalso; apply H; exact F].
    destruct (json_Unmarshal E bin) as [err|r] eqn:Hj;
      [intros H; exfalso; apply H; exact F|].
    cbn [fst snd]. unfold adopt. cbn [scanID push_sent].
    destruct (String.eqb_spec (ID r) "") as [Hr|Hr]; cbn [negb andb];
      [intros H; exfalso; apply H; exact F|].
    destruct (String.eqb_spec (scanID s1) "") as [Hs|Hs];
      [|intros H; exfalso; apply H; exact F].
    cbn [scanID set_scanID]. intros _.
    split; [congruence|]. split; [exact Hr|]. split; [reflexivity|].
    exists req, s1, resp, bin, r. repeat split; assumption.
  - intros req s1 resp bin r Hs Hreq Hdo Hb Hok Hj Hr.
    pose proof (getRequest_frame E data s) as F; cbv zeta in F.
    rewrite upload_eq, Hreq in *. cbv zeta. rewrite Hdo, Hb, Hok, Hj.
    cbn [snd] in *. destruct F as (_ & F & _).
    unfold adopt. cbn [scanID push_sent]. rewrite F, Hs.
    destruct (String.eqb_spec (ID r) ""); [contradiction|reflexivity].
Qed.

Lemma scanID_set_once_witness :
  scanID sample_state_s1 <> "" /\
  scanID (exec env_two_ids
            [ch_recv sample_line; ticker_C; ch_recv sample_line; ch_closed]
            sample_state_s1) = scanID sample_state_s1.
Proof.
  assert (H : scanID sample_state_s1 <> "") by discriminate.
  split; [exact H|].
  exact (proj1 (proj2 (scanID_set_once env_two_ids [] sample_state_s1)) _ H).
Defined.

Lemma exec_creds (E : Env) (evs : list Event) (s : State) :
  creds (exec E evs s) = creds s.
Proof.
  assert (F : forall st, creds (snd (flush E st)) = creds st).
  { intros st. rewrite flush_eq, uploadChunk_eq.
    pose proof (upload_frame E (buff st) st) as U; cbv zeta in U.
    destruct (upload E (buff st) st) as [[err|u] s1]; cbn in *; intuition congruence. }
  assert (N : forall st, creds (snd (flushNonEmpty E st)) = creds st).
  { intros st. rewrite flushNonEmpty_eq.
    destruct (len (buff st) >? 0); [apply F|reflexivity]. }
  unfold exec. revert s. induction evs as [|ev rest IH]; intros s; [reflexivity|].
  rewrite loop_cons.
  assert (S1 : creds (snd (select E ev s)) = creds s).
  { destruct ev as [| |line|].
    1-2,4: (unfold select, bind, ret; specialize (N s);
            destruct (flushNonEmpty E s) as [[err|u] s1]; exact N).
    destruct (Z_le_gt_dec (len (buff s) + len line) MaxChunkSize) as [Hle|Hgt].
    - rewrite select_recv_fits by exact Hle. reflexivity.
    - rewrite select_recv_overflow by exact Hgt. apply F. }
  destruct (select E ev s) as [[err|[|]] s1]; cbn [snd] in *; auto.
  rewrite IH. exact S1.
Qed.

(** C8.  Without credentials [NewUploadWriter] returns the error "no
    credentials provided" and no writer; a writer that was returned holds
    the credentials it was given; and no error that [upload] or
    [uploadChunk] returns during the run is that error. *)
Theorem NewUploadWriter_needs_credentials (E : Env) :
  NewUploadWriter E None = inl (Errorf "no credentials provided" []) /\
  (forall c s, NewUploadWriter E c = inr s -> c = Some (creds s)) /\
  (forall data s,
      fst (upload E data s) <> inl (Errorf "no credentials provided" [])) /\
  (forall s,
      fst (uploadChunk E s) <> inl (Errorf "no credentials provided" [])) /\
  (forall evs s, creds (exec E evs s) = creds s).
Proof.
  split; [reflexivity|].
  split; [intros c s H; apply (NewUploadWriter_fresh E c s H)|].
  split; [|split].
  - intros data s. rewrite upload_eq.
    destruct (getRequest E data s) as [[err|req] s1]; [discriminate|].
    cbv zeta. destruct (client_Do E (sent s1) req) as [err|resp]; [discriminate|].
    destruct (resp_Body resp) as [err|bin]; [discriminate|].
    destruct (resp_StatusCode resp =? StatusOK); [|discriminate].
    destruct (json_Unmarshal E bin) as [err|r]; discriminate.
  - intros s. rewrite uploadChunk_eq.
    destruct (upload E (buff s) s) as [[err|u] s1]; discriminate.
  - intros evs s. apply exec_creds.
Qed.

Lemma NewUploadWriter_needs_credentials_witness :
  NewUploadWriter env_ok (Some sample_creds) = inr sample_state /\
  Some sample_creds = Some (creds sample_state).
Proof.
  assert (H : NewUploadWriter env_ok (Some sample_creds) = inr sample_state)
    by reflexivity.
  split; [exact H|].
  exact (proj1 (proj2 (NewUploadWriter_needs_credentials env_ok)) _ _ H).
Defined.

(** ** More about the loop *)

Lemma upload_sent (E : Env) (data : bytes) (s : State) :
  sent (snd (upload E data s)) =
  match NewRequest_check E (request_method (scanID s))
          (URL_String (set_Path (request_path (scanID s)) (uploadURL s))) with
  | Some _ => sent s
  | None => sent s ++ [request_for E s data]
  end.
Proof.
  rewrite upload_eq, getRequest_eq. cbv zeta. cbn [uploadURL set_uploadURL].
  destruct (NewRequest_check E _ _); [reflexivity|].
  cbn [sent set_uploadURL].
  destruct (client_Do E _ _) as [err|resp]; [reflexivity|].
  destruct (resp_Body resp) as [err|bin]; [reflexivity|].
  destruct (resp_StatusCode resp =? StatusOK); [|reflexivity].
  destruct (json_Unmarshal E bin) as [err|r]; [reflexivity|].
  cbn [snd].
  match goal with
  | |- context [adopt ?r ?st] =>
      destruct (adopt_frame r st) as (_ & _ & _ & _ & A & _)
  end.
  rewrite A. reflexivity.
Qed.

Lemma flush_sent (E : Env) (s : State) :
  sent (snd (flush E s)) = sent (snd (upload E (buff s) s)).
Proof.
  rewrite flush_eq, uploadChunk_eq.
  destruct (upload E (buff s) s) as [[err|u] s1]; reflexivity.
Qed.

(** What a flush leaves alone. *)
Lemma flush_frame (E : Env) (s : State) :
  creds (snd (flush E s)) = creds s /\
  counter (snd (flush E s)) = counter s /\
  done (snd (flush E s)) = done s /\
  Scheme (uploadURL (snd (flush E s))) = Scheme (uploadURL s) /\
  Host (uploadURL (snd (flush E s))) = Host (uploadURL s).
Proof.
  rewrite flush_eq, uploadChunk_eq.
  pose proof (upload_frame E (buff s) s) as F; cbv zeta in F.
  destruct (upload E (buff s) s) as [[err|u] s1]; cbn in *; intuition congruence.
Qed.

(** The state after one turn, by cases on the event. *)
Lemma select_state (E : Env) (ev : Event) (s : State) :
  snd (select E ev s) =
  match ev with
  | ch_recv line =>
      if len (buff s) + len line >? MaxChunkSize
      then snd (flush E s) else WriteString line s
  | _ => if len (buff s) >? 0 then snd (flush E s) else s
  end.
Proof.
  pose proof (flush_returns E s) as R.
  destruct ev as [| |line|]; unfold select, bind, gets, modify, ret;
    try rewrite flushNonEmpty_eq.
  1-2,4: (destruct (len (buff s) >? 0); [|reflexivity];
          destruct (flush E s) as [[err|u] s1]; cbn in *;
          [discriminate|reflexivity]).
  destruct (len (buff s) + len line >? MaxChunkSize); [|reflexivity].
  destruct (flush E s) as [[err|u] s1]; cbn in *; [discriminate|reflexivity].
Qed.

Lemma select_verdict (E : Env) (ev : Event) (s : State) :
  fst (select E ev s) = inr (if terminal ev then Return else Continue).
Proof.
  pose proof (flush_returns E s) as R.
  destruct ev as [| |line|]; unfold select, bind, gets, modify, ret;
    try rewrite flushNonEmpty_eq.
  1-2,4: (destruct (len (buff s) >? 0); [|reflexivity];
          destruct (flush E s) as [[err|u] s1]; cbn in *;
          [discriminate|reflexivity]).
  destruct (len (buff s) + len line >? MaxChunkSize); [|reflexivity].
  destruct (flush E s) as [[err|u] s1]; cbn in *; [discriminate|reflexivity].
Qed.

Lemma exec_cons (E : Env) (ev : Event) (rest : list Event) (s : State) :
  exec E (ev :: rest) s =
  if terminal ev then snd (select E ev s)
  else exec E rest (snd (select E ev s)).
Proof.
  unfold exec. rewrite loop_cons.
  pose proof (select_verdict E ev s) as V.
  destruct (select E ev s) as [[err|[|]] s1]; cbn [fst snd] in *;
    destruct (terminal ev); try discriminate; reflexivity.
Qed.

Lemma select_frame (E : Env) (ev : Event) (s : State) :
  creds (snd (select E ev s)) = creds s /\
  counter (snd (select E ev s)) = counter s /\
  done (snd (select E ev s)) = done s /\
  Scheme (uploadURL (snd (select E ev s))) = Scheme (uploadURL s) /\
  Host (uploadURL (snd (select E ev s))) = Host (uploadURL s).
Proof.
  rewrite select_state. pose proof (flush_frame E s) as F.
  destruct ev as [| |line|];
    repeat match goal with
           | |- context [if ?b then _ else _] => destruct b
           end; try exact F; repeat split; reflexivity.
Qed.

Lemma exec_frame (E : Env) (evs : list Event) (s : State) :
  creds (exec E evs s) = creds s /\
  counter (exec E evs s) = counter s /\
  done (exec E evs s) = done s /\
  Scheme (uploadURL (exec E evs s)) = Scheme (uploadURL s) /\
  Host (uploadURL (exec E evs s)) = Host (uploadURL s).
Proof.
  revert s. induction evs as [|ev rest IH]; intros s.
  - repeat split; reflexivity.
  - rewrite exec_cons. pose proof (select_frame E ev s) as F.
    destruct (terminal ev); [exact F|].
    specialize (IH (snd (select E ev s))). intuition congruence.
Qed.

Lemma loop_verdict (E : Env) (evs : list Event) (s : State) :
  fst (loop E evs s) = inr (if existsb terminal evs then Return else Continue).
Proof.
  revert s. induction evs as [|ev rest IH]; intros s; [reflexivity|].
  rewrite loop_cons. pose proof (select_verdict E ev s) as V.
  cbn [existsb].
  destruct (select E ev s) as [[err|[|]] s1]; cbn [fst] in V;
    destruct (terminal ev); try discriminate; cbn [orb].
  - apply IH.
  - reflexivity.
Qed.

(** X1.  Whether the loop has returned depends on the events alone: it
    returns on the first cancellation or end of the channel and on
    nothing else, however the uploads on the way went; in particular no
    failed upload ends it, and a run of records and ticks never does. *)
Theorem loop_returns_on_terminal_only (E : Env) (evs : list Event) (s : State) :
  fst (loop E evs s) = inr (if existsb terminal evs then Return else Continue) /\
  (fst (loop E evs s) = inr Return <-> exists ev, In ev evs /\ terminal ev = true).
Proof.
  split; [apply loop_verdict|]. rewrite loop_verdict.
  destruct (existsb terminal evs) eqn:Hx.
  - split; [intros _|reflexivity]. apply existsb_exists in Hx. exact Hx.
  - split; [discriminate|]. intros Hex. apply existsb_exists in Hex. congruence.
Qed.

Lemma loop_returns_on_terminal_only_witness :
  (exists ev, In ev [ch_recv sample_line; ticker_C; ch_closed] /\ terminal ev = true) /\
  fst (loop env_down [ch_recv sample_line; ticker_C; ch_closed] sample_state)
    = inr Return.
Proof.
  assert (H : exists ev, In ev [ch_recv sample_line; ticker_C; ch_closed] /\
                         terminal ev = true).
  { exists ch_closed. split; [right; right; left; reflexivity|reflexivity]. }
  split; [exact H|].
  exact (proj2 (proj2 (loop_returns_on_terminal_only env_down
                         [ch_recv sample_line; ticker_C; ch_closed] sample_state))
               H).
Defined.

(** X2.  Once the loop has returned, what else the timer or the channel
    would deliver changes nothing. *)
Theorem loop_ignores_events_after_return
  (E : Env) (pre post : list Event) (t : Event) (s : State) :
  terminal t = true ->
  loop E (pre ++ t :: post) s = loop E (pre ++ [t]) s.
Proof.
  intros Ht. revert s. induction pre as [|ev pre IH]; intros s; cbn [app].
  - rewrite !loop_cons. pose proof (select_verdict E t s) as V.
    rewrite Ht in V.
    destruct (select E t s) as [[err|[|]] s1]; cbn [fst] in V;
      try discriminate; reflexivity.
  - rewrite !loop_cons.
    destruct (select E ev s) as [[err|[|]] s1]; [reflexivity|apply IH|reflexivity].
Qed.

Lemma loop_ignores_events_after_return_witness :
  terminal ctx_Done = true /\
  loop env_ok ([ch_recv sample_line] ++ ctx_Done :: [ch_recv sample_line; ticker_C])
       sample_state =
  loop env_ok ([ch_recv sample_line] ++ [ctx_Done]) sample_state.
Proof.
  split; [reflexivity|].
  exact (loop_ignores_events_after_return env_ok [ch_recv sample_line]
           [ch_recv sample_line; ticker_C] ctx_Done sample_state eq_refl).
Defined.

Lemma flush_sent_request (E : Env) (s : State) :
  sent (snd (flush E s)) = sent s \/
  sent (snd (flush E s)) = sent s ++ [request_for E s (buff s)].
Proof.
  rewrite flush_sent, upload_sent.
  destruct (NewRequest_check E _ _); [left|right]; reflexivity.
Qed.

Lemma select_sent (E : Env) (ev : Event) (s : State) :
  sent (snd (select E ev s)) = sent s \/
  sent (snd (select E ev s)) = sent s ++ [request_for E s (buff s)].
Proof.
  pose proof (flush_sent_request E s) as F. rewrite select_state.
  destruct ev as [| |line|];
    repeat match goal with
           | |- context [if ?b then _ else _] => destruct b
           end; try exact F; left; reflexivity.
Qed.

(** X3.  In one turn of the loop at most one request is handed to the
    client, and its body is what the buffer held when the turn began: a
    record that has just arrived is never part of it. *)
Theorem select_sends_buffer_only (E : Env) (ev : Event) (s : State) :
  sent (snd (select E ev s)) = sent s \/
  exists req,
    sent (snd (select E ev s)) = sent s ++ [req] /\ req_Body req = buff s.
Proof.
  destruct (select_sent E ev s) as [H|H]; [left; exact H|].
  right. exists (request_for E s (buff s)). split; [exact H|reflexivity].
Qed.

Lemma select_idle (E : Env) (ev : Event) (s : State) :
  is_recv ev = false -> buff s = [] -> snd (select E ev s) = s.
Proof.
  intros Hev Hb. rewrite select_state, Hb.
  destruct ev; [reflexivity|reflexivity|discriminate|reflexivity].
Qed.



Lemma autoCommit_eq (E : Env) (evs : list Event) (s : State) :
  autoCommit E evs s =
  if existsb terminal evs then deferred E (exec E evs s)
  else (inr tt, exec E evs s).
Proof.
  unfold autoCommit, bind, exec, ret.
  pose proof (loop_verdict E evs s) as V.
  destruct (loop E evs s) as [[err|[|]] s1]; cbn [fst snd] in *;
    destruct (existsb terminal evs); try discriminate; reflexivity.
Qed.

Lemma deferred_eq (E : Env) (s : State) :
  deferred E s =
  (inr tt,
   push_log (if (scanID s =? "")%string then skipped_entry
             else mkLog Info
                    "%v Scan results uploaded to cloud, you can view scan results at %v"
                    [ArgInt (counter s); ArgStr (getScanDashBoardURL E (scanID s))]
                    None)
            (signal_done s)).
Proof.
  unfold deferred, logf, bind, gets, modify, skipped_entry.
  cbn [scanID counter signal_done].
  destruct (scanID s =? "")%string; reflexivity.
Qed.

(** X5.  The completion signal is given once when the loop returns and
    not before: after [autoCommit] has run on the events, [done] has
    grown by one if a cancellation or the end of the channel was among
    them and is unchanged otherwise. *)
Theorem autoCommit_signals_done_once (E : Env) (evs : list Event) (s : State) :
  done (snd (autoCommit E evs s)) =
  if existsb terminal evs then S (done s) else done s.
Proof.
  rewrite autoCommit_eq. destruct (exec_frame E evs s) as (_ & _ & D & _).
  destruct (existsb terminal evs).
  - destruct (deferred_frame E (exec E evs s)) as (_ & _ & _ & D').
    rewrite D', D. reflexivity.
  - exact D.
Qed.

(** X6.  A cancellation, the end of the channel or a tick that finds a
    non-empty buffer makes exactly one flush: when the request can be
    built, exactly one request goes to the client, built for the scan id
    in force with the whole buffer as body. *)
Theorem nonempty_buffer_flushed_once (E : Env) (ev : Event) (s : State) :
  is_recv ev = false ->
  buff s <> [] ->
  NewRequest_check E (request_method (scanID s))
    (URL_String (set_Path (request_path (scanID s)) (uploadURL s))) = None ->
  sent (snd (select E ev s)) = sent s ++ [request_for E s (buff s)].
Proof.
  intros Hev Hb Hn.
  assert (L : (len (buff s) >? 0) = true).
  { unfold len. destruct (buff s); [contradiction|reflexivity]. }
  rewrite select_state.
  destruct ev; try discriminate; rewrite L, flush_sent, upload_sent, Hn;
    reflexivity.
Qed.

Lemma nonempty_buffer_flushed_once_witness :
  sent (snd (select env_down ctx_Done sample_loaded)) =
  sent sample_loaded ++ [request_for env_down sample_loaded (buff sample_loaded)].
Proof.
  apply (nonempty_buffer_flushed_once env_down ctx_Done sample_loaded).
  - reflexivity.
  - discriminate.
  - reflexivity.
Defined.

Lemma exec_idle (E : Env) (evs : list Event) (s : State) :
  forallb (fun ev => negb (is_recv ev)) evs = true ->
  buff s = [] ->
  exec E evs s = s.
Proof.
  intros Hev Hb. induction evs as [|ev rest IH]; [reflexivity|].
  cbn [forallb] in Hev. apply andb_prop in Hev as [H1 H2].
  apply negb_true_iff in H1.
  rewrite exec_cons, (select_idle E ev s H1 Hb).
  destruct (terminal ev); [reflexivity|apply IH; exact H2].
Qed.

(** X7.  A run in which no record arrives, on a writer with an empty
    buffer and no scan id, ends without any request: when it returns, the
    only effects are the completion signal and the summary that the
    upload was skipped. *)
Theorem run_without_records_is_skipped (E : Env) (evs : list Event) (s : State) :
  forallb (fun ev => negb (is_recv ev)) evs = true ->
  existsb terminal evs = true ->
  buff s = [] ->
  scanID s = "" ->
  snd (autoCommit E evs s) = push_log skipped_entry (signal_done s).
Proof.
  intros Hev Ht Hb Hid.
  rewrite autoCommit_eq, Ht, (exec_idle E evs s Hev Hb), deferred_eq, Hid.
  reflexivity.
Qed.

Lemma run_without_records_is_skipped_witness :
  snd (autoCommit env_ok [ticker_C; ticker_C; ctx_Done] sample_state) =
  push_log skipped_entry (signal_done sample_state).
Proof.
  apply (run_without_records_is_skipped env_ok [ticker_C; ticker_C; ctx_Done]
           sample_state); reflexivity.
Defined.



Lemma accepting_flush (E : Env) (s : State) :
  accepting E ->
  buff (snd (flush E s)) = [] /\
  sent (snd (flush E s)) = sent s ++ [request_for E s (buff s)].
Proof.
  intros [Hn Hd]. split.
  - rewrite flush_eq, uploadChunk_eq, upload_eq, getRequest_eq. cbv zeta.
    rewrite Hn.
    match goal with
    | |- context [client_Do E ?h ?r] =>
        destruct (Hd h r) as (resp & bin & r' & -> & -> & -> & ->)
    end.
    reflexivity.
  - rewrite flush_sent, upload_sent, Hn. reflexivity.
Qed.

Lemma bodies_app (a : list Request) (r : Request) :
  List.concat (map req_Body (a ++ [r])) = List.concat (map req_Body a) ++ req_Body r.
Proof.
  rewrite map_app, concat_app. cbn [map List.concat]. rewrite app_nil_r.
  reflexivity.
Qed.

(** X9.  When every upload goes through and the records of a run fit
    together with the buffer into [MaxChunkSize], nothing is lost or
    reordered: the bodies sent, one after the other, followed by what is
    still buffered are the bodies sent before, the old buffer and the
    records received, in order; and once the loop has returned the buffer
    is empty, so all of it has been sent. *)
Theorem delivery_in_order (E : Env) (evs : list Event) (s : State) :
  accepting E ->
  len (buff s) + len (List.concat (received evs)) <= MaxChunkSize ->
  List.concat (map req_Body (sent (exec E evs s))) ++ buff (exec E evs s) =
    List.concat (map req_Body (sent s)) ++ buff s ++ List.concat (received evs) /\
  (existsb terminal evs = true -> buff (exec E evs s) = []).
Proof.
  intros HA. revert s. induction evs as [|ev rest IH]; intros s H.
  - cbn [received List.concat existsb]. rewrite app_nil_r.
    split; [reflexivity|discriminate].
  - rewrite exec_cons, select_state.
    destruct (accepting_flush E s HA) as (FB & FS).
    assert (Flushed :
              List.concat (map req_Body (sent (snd (flush E s))))
                ++ buff (snd (flush E s)) =
              List.concat (map req_Body (sent s)) ++ buff s).
    { rewrite FB, FS, bodies_app, app_nil_r. reflexivity. }
    pose proof (len_nonneg (buff s)) as Hnn.
    destruct ev as [| |line|]; cbn [terminal received existsb orb List.concat] in *.
    + rewrite app_nil_r. split.
      * destruct (len (buff s) >? 0); [exact Flushed|reflexivity].
      * intros _. destruct (Z.gtb_spec (len (buff s)) 0) as [Hp|Hz]; [exact FB|].
        unfold len in Hz. destruct (buff s); [reflexivity|cbn in Hz; lia].
    + destruct (len (buff s) >? 0).
      * destruct (IH (snd (flush E s))) as (I1 & I2).
        { rewrite FB, len_nil. lia. }
        split; [|exact I2]. rewrite I1, FB, FS, bodies_app. cbn [app].
        rewrite <- app_assoc. reflexivity.
      * apply IH. exact H.
    + rewrite len_app in H. pose proof (len_nonneg (List.concat (received rest))).
      destruct (Z.gtb_spec (len (buff s) + len line) MaxChunkSize) as [Hgt|Hle];
        [lia|].
      destruct (IH (WriteString line s)) as (I1 & I2).
      { unfold WriteString. cbn [buff set_buff]. rewrite len_app. lia. }
      split; [|exact I2]. rewrite I1. unfold WriteString. cbn [buff sent set_buff].
      rewrite <- !app_assoc. reflexivity.
    + rewrite app_nil_r. split.
      * destruct (len (buff s) >? 0); [exact Flushed|reflexivity].
      * intros _. destruct (Z.gtb_spec (len (buff s)) 0) as [Hp|Hz]; [exact FB|].
        unfold len in Hz. destruct (buff s); [reflexivity|cbn in Hz; lia].
Qed.

Lemma env_ok_accepting : accepting env_ok.
Proof.
  split; [reflexivity|]. intros history req.
  exists (mkResponse 200 (inr (list_byte_of_string (json_id "s1"))) req),
         (list_byte_of_string (json_id "s1")), (mkUploadResponse "s1").
  repeat split; reflexivity.
Defined.

Lemma delivery_in_order_witness :
  List.concat
    (map req_Body
       (sent (exec env_ok [ch_recv sample_line; ticker_C; ch_recv sample_line; ch_closed]
                   sample_state)))
    ++ buff (exec env_ok [ch_recv sample_line; ticker_C; ch_recv sample_line; ch_closed]
                  sample_state) =
  List.concat (map req_Body (sent sample_state)) ++ buff sample_state
    ++ List.concat
         (received [ch_recv sample_line; ticker_C; ch_recv sample_line; ch_closed]).
Proof.
  refine (proj1 (delivery_in_order env_ok
                   [ch_recv sample_line; ticker_C; ch_recv sample_line; ch_closed]
                   sample_state env_ok_accepting _)).
  vm_compute. discriminate.
Defined.

Lemma In_snoc {A : Type} (x y : A) (l : list A) :
  In x (l ++ [y]) -> In x l \/ x = y.
Proof.
  intros H. apply in_app_or in H as [H|[H|[]]]; [left; exact H|right; congruence].
Qed.

(** X10.  With a scan id set, every request a run adds is a PATCH to the
    import path of that scan id: no later request goes to the creation
    endpoint or to another scan. *)
Theorem requests_append_once_scanID_set
  (E : Env) (evs : list Event) (s : State) (req : Request) :
  scanID s <> "" ->
  In req (sent (exec E evs s)) ->
  In req (sent s) \/
  (req_Method req = "PATCH" /\
   Path (req_URL req) = ("/v1/scans/" ++ scanID s ++ "/import")%string).
Proof.
  intros Hid. revert s Hid. induction evs as [|ev rest IH]; intros s Hid Hin.
  - left. exact Hin.
  - rewrite exec_cons in Hin.
    assert (Step : forall r, In r (sent (snd (select E ev s))) ->
                             In r (sent s) \/
                             (req_Method r = "PATCH" /\
                              Path (req_URL r) =
                                ("/v1/scans/" ++ scanID s ++ "/import")%string)).
    { intros r Hr. destruct (select_sent E ev s) as [Hs|Hs]; rewrite Hs in Hr.
      - left. exact Hr.
      - apply In_snoc in Hr as [Hr| ->]; [left; exact Hr|right].
        unfold request_for, request_method, request_path.
        cbn [req_Method req_URL Path set_RawQuery set_Path].
        destruct (String.eqb_spec (scanID s) ""); [contradiction|].
        split; [reflexivity|apply Sprintf_appendEndpoint]. }
    destruct (terminal ev); [apply Step; exact Hin|].
    pose proof (select_keeps_scanID E ev s Hid) as K.
    destruct (IH (snd (select E ev s))) as [H|H].
    + rewrite K. exact Hid.
    + exact Hin.
    + apply Step. exact H.
    + right. rewrite K in H. exact H.
Qed.

Lemma requests_append_once_scanID_set_witness :
  In sample_patch
     (sent (exec env_two_ids [ch_recv [x0a]; ticker_C] sample_state_s1)) /\
  (In sample_patch (sent sample_state_s1) \/
   (req_Method sample_patch = "PATCH" /\
    Path (req_URL sample_patch) =
      ("/v1/scans/" ++ scanID sample_state_s1 ++ "/import")%string)).
Proof.
  assert (Hin : In sample_patch
                   (sent (exec env_two_ids [ch_recv [x0a]; ticker_C] sample_state_s1)))
    by (left; reflexivity).
  split; [exact Hin|].
  refine (requests_append_once_scanID_set env_two_ids _ sample_state_s1
            sample_patch _ Hin).
  discriminate.
Defined.

(** X11.  Every request a run adds, whatever the scan id at the time,
    goes to the scheme and host of the writer's upload URL, has the client
    parameters as query string and carries [Content-Type:
    application/octet-stream] and [Accept: application/json]. *)
Theorem requests_of_a_run (E : Env) (evs : list Event) (s : State) (req : Request) :
  In req (sent (exec E evs s)) ->
  In req (sent s) \/
  (Scheme (req_URL req) = Scheme (uploadURL s) /\
   Host (req_URL req) = Host (uploadURL s) /\
   RawQuery (req_URL req) = GetpdtmParams E /\
   Header_Get "Content-Type" (req_Header req) = "application/octet-stream" /\
   Header_Get "Accept" (req_Header req) = "application/json").
Proof.
  revert s. induction evs as [|ev rest IH]; intros s Hin.
  - left. exact Hin.
  - rewrite exec_cons in Hin.
    assert (Step : forall r, In r (sent (snd (select E ev s))) ->
                             In r (sent s) \/
                             (Scheme (req_URL r) = Scheme (uploadURL s) /\
                              Host (req_URL r) = Host (uploadURL s) /\
                              RawQuery (req_URL r) = GetpdtmParams E /\
                              Header_Get "Content-Type" (req_Header r)
                                = "application/octet-stream" /\
                              Header_Get "Accept" (req_Header r)
                                = "application/json")).
    { intros r Hr. destruct (select_sent E ev s) as [Hs|Hs]; rewrite Hs in Hr.
      - left. exact Hr.
      - apply In_snoc in Hr as [Hr| ->]; [left; exact Hr|right].
        unfold request_for, request_headers. cbn [req_URL req_Header].
        do 3 (split; [reflexivity|]).
        split; [rewrite Header_Get_Set_other by discriminate|];
          apply Header_Get_Set_same. }
    destruct (terminal ev); [apply Step; exact Hin|].
    destruct (select_frame E ev s) as (_ & _ & _ & FS & FH).
    destruct (IH (snd (select E ev s)) Hin) as [H|H].
    + apply Step. exact H.
    + right. rewrite FS, FH in H. exact H.
Qed.

Lemma requests_of_a_run_witness :
  In sample_patch
     (sent (exec env_two_ids [ch_recv [x0a]; ticker_C] sample_state_s1)) /\
  (In sample_patch (sent sample_state_s1) \/
   (Scheme (req_URL sample_patch) = Scheme (uploadURL sample_state_s1) /\
    Host (req_URL sample_patch) = Host (uploadURL sample_state_s1) /\
    RawQuery (req_URL sample_patch) = GetpdtmParams env_two_ids /\
    Header_Get "Content-Type" (req_Header sample_patch)
      = "application/octet-stream" /\
    Header_Get "Accept" (req_Header sample_patch) = "application/json")).
Proof.
  assert (Hin : In sample_patch
                   (sent (exec env_two_ids [ch_recv [x0a]; ticker_C] sample_state_s1)))
    by (left; reflexivity).
  split; [exact Hin|].
  exact (requests_of_a_run env_two_ids _ sample_state_s1 sample_patch Hin).
Defined.

(** X12.  A record that alone is larger than [MaxChunkSize] and arrives at
    an empty buffer sets off a flush of that empty buffer: when the
    request can be built, a request with an empty body goes to the client,
    and the buffer stays empty. *)
Theorem oversize_record_sends_empty_body (E : Env) (line : bytes) (s : State) :
  buff s = [] ->
  len line > MaxChunkSize ->
  NewRequest_check E (request_method (scanID s))
    (URL_String (set_Path (request_path (scanID s)) (uploadURL s))) = None ->
  sent (snd (select E (ch_recv line) s)) = sent s ++ [request_for E s []] /\
  buff (snd (select E (ch_recv line) s)) = [].
Proof.
  intros Hb Hgt Hn.
  assert (H : len (buff s) + len line > MaxChunkSize)
    by (rewrite Hb, len_nil; lia).
  rewrite select_recv_overflow by exact H. cbn [snd]. split.
  - rewrite flush_sent, upload_sent, Hn, Hb. reflexivity.
  - destruct (flush_buff E s) as [F|F]; [exact F|rewrite F; exact Hb].
Qed.

Lemma oversize_record_sends_empty_body_witness :
  sent (snd (select env_down (ch_recv (record_of (5 * 1024 * 1024))) sample_state)) =
    sent sample_state ++ [request_for env_down sample_state []] /\
  buff (snd (select env_down (ch_recv (record_of (5 * 1024 * 1024))) sample_state)) = [].
Proof.
  apply (oversize_record_sends_empty_body env_down
           (record_of (5 * 1024 * 1024)) sample_state).
  - reflexivity.
  - rewrite len_record_of by lia. rewrite MaxChunkSize_eq. lia.
  - reflexivity.
Defined.

(** X13.  When the request cannot be built, [upload] returns that error
    wrapped twice, the client is not called, and the flush that asked for
    the upload keeps the buffer and the scan id as they were. *)
Theorem upload_without_request (E : Env) (data : bytes) (s : State) (err : error) :
  NewRequest_check E (request_method (scanID s))
    (URL_String (set_Path (request_path (scanID s)) (uploadURL s))) = Some err ->
  fst (upload E data s) =
    inl (NewWithErr (NewWithErr err "could not create cloud upload request" [])
                    "could not create upload request" []) /\
  sent (snd (upload E data s)) = sent s /\
  sent (snd (flush E s)) = sent s /\
  buff (snd (flush E s)) = buff s /\
  scanID (snd (flush E s)) = scanID s.
Proof.
  intros Hn.
  assert (U : upload E (buff s) s =
              (inl (NewWithErr (NewWithErr err "could not create cloud upload request" [])
                               "could not create upload request" []),
               set_uploadURL (set_Path (request_path (scanID s)) (uploadURL s)) s)).
  { rewrite upload_eq, getRequest_eq. cbv zeta. cbn [uploadURL set_uploadURL].
    rewrite Hn. reflexivity. }
  split; [|split; [|split; [|split]]].
  - rewrite upload_eq, getRequest_eq. cbv zeta. cbn [uploadURL set_uploadURL].
    rewrite Hn. reflexivity.
  - rewrite upload_sent, Hn. reflexivity.
  - rewrite flush_sent, upload_sent, Hn. reflexivity.
  - rewrite flush_eq, uploadChunk_eq, U. reflexivity.
  - rewrite flush_eq, uploadChunk_eq, U. reflexivity.
Qed.

Lemma upload_without_request_witness :
  sent (snd (flush env_no_request sample_loaded)) = sent sample_loaded /\
  buff (snd (flush env_no_request sample_loaded)) = buff sample_loaded.
Proof.
  destruct (upload_without_request env_no_request [] sample_loaded
              (Errorf "invalid method" []) eq_refl) as (_ & _ & S & B & _).
  split; [exact S|exact B].
Defined.

(** ** The collector *)

Lemma collector_cons (c : byte) (data r : bytes) (s : State) :
  collector data (c :: r) s =
  if Byte.eqb c x0a
  then ((data ++ [c]) :: fst (collector [] r (set_counter (Int32_Add (counter s) 1) s)),
        snd (collector [] r (set_counter (Int32_Add (counter s) 1) s)))
  else collector (data ++ [c]) r s.
Proof.
  cbn [collector]. destruct (Byte.eqb c x0a); [|reflexivity].
  destruct (collector [] r (set_counter (Int32_Add (counter s) 1) s)); reflexivity.
Qed.

Lemma byte_eqb_x0a (c : byte) : Byte.eqb c x0a = true <-> c = x0a.
Proof.
  split; [apply Byte.byte_dec_bl|intros ->; reflexivity].
Qed.



Lemma collector_lines (data r : bytes) (s : State) :
  Forall (fun c => c <> x0a) data ->
  Forall is_line (fst (collector data r s)).
Proof.
  revert data s. induction r as [|c r IH]; intros data s Hd.
  - constructor.
  - rewrite collector_cons. destruct (Byte.eqb c x0a) eqn:Hc.
    + apply byte_eqb_x0a in Hc. subst c. cbn [fst]. constructor.
      * exists data. split; [reflexivity|exact Hd].
      * apply IH. constructor.
    + apply IH. apply Forall_app. split; [exact Hd|]. constructor; [|constructor].
      intros ->. discriminate.
Qed.

(** X15.  Each record the collector sends is one line: it ends with the
    delimiter and has no delimiter before its end. *)
Theorem collector_sends_lines (r : bytes) (s : State) :
  Forall is_line (fst (collector [] r s)).
Proof. apply collector_lines. constructor. Qed.










(** ** Construction *)

(** X18.  With credentials, [NewUploadWriter] succeeds exactly when the
    output writer can be created and the server URL parses; a failure of
    the output writer is reported first, whatever the server URL, and
    either failure comes back wrapped with its own message. *)
Theorem NewUploadWriter_outcome (E : Env) (cr : PDCPCredentials) :
  ((exists s, NewUploadWriter E (Some cr) = inr s) <->
   output_NewWriter E = None /\ exists u, urlutil_Parse E (Server cr) = inr u) /\
  (forall err,
      output_NewWriter E = Some err ->
      NewUploadWriter E (Some cr) =
      inl (NewWithErr err "could not create output writer" [])) /\
  (forall err,
      output_NewWriter E = None ->
      urlutil_Parse E (Server cr) = inl err ->
      NewUploadWriter E (Some cr) =
      inl (NewWithErr err "could not parse server url" [])).
Proof.
  unfold NewUploadWriter. split; [|split].
  - destruct (output_NewWriter E) as [e|].
    + split; [intros [s H]; discriminate|intros [H _]; discriminate].
    + destruct (urlutil_Parse E (Server cr)) as [e|u].
      * split; [intros [s H]; discriminate|intros [_ [u H]]; discriminate].
      * split; [intros _; split; [reflexivity|exists u; reflexivity]
               |intros _; eexists; reflexivity].
  - intros err ->. reflexivity.
  - intros err -> ->. reflexivity.
Qed.

Lemma NewUploadWriter_outcome_witness :
  exists s, NewUploadWriter env_ok (Some sample_creds) = inr s.
Proof.
  apply (proj1 (NewUploadWriter_outcome env_ok sample_creds)).
  split; [reflexivity|]. exists (mkURL "https" "api.projectdiscovery.io" "" "").
  reflexivity.
Defined.

(** X19.  The first request of a writer just constructed is a POST to
    [/v1/scans/import] on the scheme and host of the parsed server URL:
    whatever path the server URL had is replaced, and the body is the
    data given. *)
Theorem first_request_creates_scan
  (E : Env) (c : option PDCPCredentials) (s0 s' : State)
  (bin : bytes) (req : Request) :
  NewUploadWriter E c = inr s0 ->
  getRequest E bin s0 = (inr req, s') ->
  req_Method req = "POST" /\
  Path (req_URL req) = "/v1/scans/import" /\
  req_Body req = bin /\
  exists cr u,
    c = Some cr /\ urlutil_Parse E (Server cr) = inr u /\
    Scheme (req_URL req) = Scheme u /\ Host (req_URL req) = Host u.
Proof.
  unfold NewUploadWriter. intros Hn Hg.
  destruct c as [cr|]; [|discriminate].
  destruct (output_NewWriter E); [discriminate|].
  destruct (urlutil_Parse E (Server cr)) as [e|u] eqn:Hp; [discriminate|].
  injection Hn as <-. rewrite getRequest_eq in Hg. cbv zeta in Hg.
  cbn [scanID uploadURL set_uploadURL] in Hg.
  destruct (NewRequest_check E _ _); [discriminate|].
  injection Hg as <- _. cbn [req_Method req_URL req_Body].
  do 3 (split; [reflexivity|]).
  exists cr, u. repeat split; [exact Hp].
Qed.

Lemma first_request_creates_scan_witness :
  NewUploadWriter env_ok (Some sample_creds) = inr sample_state /\
  req_Method (request_for env_ok sample_state [x0a]) = "POST".
Proof.
  assert (Hn : NewUploadWriter env_ok (Some sample_creds) = inr sample_state)
    by reflexivity.
  assert (Hg : getRequest env_ok [x0a] sample_state =
               (inr (request_for env_ok sample_state [x0a]), sample_state))
    by reflexivity.
  split; [exact Hn|].
  exact (proj1 (first_request_creates_scan env_ok _ sample_state sample_state
                  [x0a] _ Hn Hg)).
Defined.

(** ** protocolinit *)

Lemma protocolinit_Init_eq (Options : Type)
      (init : protocolinit.Package -> Options -> option error)
      (options : Options) (tr : protocolinit.Calls) :
  protocolinit.Init Options init options tr =
  protocolinit.first_error init options protocolinit.order tr.
Proof.
  unfold protocolinit.Init, protocolinit.order, protocolinit.orReturn,
    protocolinit.call.
  cbn [protocolinit.first_error].
  repeat match goal with
         | |- context [init ?p options] => destruct (init p options)
         end; rewrite <- ?app_assoc; reflexivity.
Qed.

Lemma first_error_none (Options : Type)
      (init : protocolinit.Package -> Options -> option error)
      (options : Options) (ps : list protocolinit.Package)
      (tr : protocolinit.Calls) :
  (forall p, In p ps -> init p options = None) ->
  protocolinit.first_error init options ps tr = (None, tr ++ ps).
Proof.
  revert tr. induction ps as [|p ps IH]; intros tr H.
  - cbn. rewrite app_nil_r. reflexivity.
  - cbn [protocolinit.first_error]. rewrite (H p (or_introl eq_refl)).
    rewrite IH by (intros q Hq; apply H; right; exact Hq).
    rewrite <- app_assoc. reflexivity.
Qed.

Lemma first_error_split (Options : Type)
      (init : protocolinit.Package -> Options -> option error)
      (options : Options) (pre post : list protocolinit.Package)
      (p : protocolinit.Package) (err : error) (tr : protocolinit.Calls) :
  (forall q, In q pre -> init q options = None) ->
  init p options = Some err ->
  protocolinit.first_error init options (pre ++ p :: post) tr =
  (Some err, tr ++ pre ++ [p]).
Proof.
  revert tr. induction pre as [|q pre IH]; intros tr Hpre Hp.
  - cbn [app protocolinit.first_error]. rewrite Hp. reflexivity.
  - cbn [app protocolinit.first_error]. rewrite (Hpre q (or_introl eq_refl)).
    rewrite IH by (try exact Hp; intros q' Hq'; apply Hpre; right; exact Hq').
    rewrite <- app_assoc. reflexivity.
Qed.

(** X20.  [Init] stops at the first package whose [Init] fails: it returns
    that error, the packages before it have been initialised and stay so,
    and the packages after it are not called. *)
Theorem Init_stops_at_first_error
  (Options : Type) (init : protocolinit.Package -> Options -> option error)
  (options : Options) (pre post : list protocolinit.Package)
  (p : protocolinit.Package) (err : error) :
  protocolinit.order = pre ++ p :: post ->
  (forall q, In q pre -> init q options = None) ->
  init p options = Some err ->
  protocolinit.Init Options init options [] = (Some err, pre ++ [p]).
Proof.
  intros Ho Hpre Hp. rewrite protocolinit_Init_eq, Ho.
  apply (first_error_split Options init options pre post p err [] Hpre Hp).
Qed.

Lemma Init_stops_at_first_error_witness :
  protocolinit.Init unit protocolinit.sample_init tt [] =
  (Some (Errorf "signer failed" []),
   [protocolinit.protocolstate; protocolinit.dnsclientpool;
    protocolinit.httpclientpool] ++ [protocolinit.signerpool]).
Proof.
  apply (Init_stops_at_first_error unit protocolinit.sample_init tt
           [protocolinit.protocolstate; protocolinit.dnsclientpool;
            protocolinit.httpclientpool]
           [protocolinit.networkclientpool; protocolinit.rdapclientpool;
            protocolinit.compiler]
           protocolinit.signerpool (Errorf "signer failed" [])).
  - reflexivity.
  - intros q [<-|[<-|[<-|[]]]]; reflexivity.
  - reflexivity.
Defined.

(** X21.  [Init] returns no error exactly when the [Init] of each of the
    seven packages returns none, and then all seven have been called, in
    the order of the source, each once. *)
Theorem Init_succeeds_iff_all_succeed
  (Options : Type) (init : protocolinit.Package -> Options -> option error)
  (options : Options) :
  (fst (protocolinit.Init Options init options []) = None <->
   forall p, init p options = None) /\
  (fst (protocolinit.Init Options init options []) = None ->
   snd (protocolinit.Init Options init options []) = protocolinit.order).
Proof.
  assert (All : (forall p, init p options = None) ->
                protocolinit.Init Options init options [] =
                (None, protocolinit.order)).
  { intros H. rewrite protocolinit_Init_eq.
    apply (first_error_none Options init options protocolinit.order []).
    intros p _. apply H. }
  assert (Back : fst (protocolinit.Init Options init options []) = None ->
                 forall p, init p options = None).
  { unfold protocolinit.Init, protocolinit.orReturn, protocolinit.call.
    destruct (init protocolinit.protocolstate options) eqn:H1; [discriminate|].
    destruct (init protocolinit.dnsclientpool options) eqn:H2; [discriminate|].
    destruct (init protocolinit.httpclientpool options) eqn:H3; [discriminate|].
    destruct (init protocolinit.signerpool options) eqn:H4; [discriminate|].
    destruct (init protocolinit.networkclientpool options) eqn:H5; [discriminate|].
    destruct (init protocolinit.rdapclientpool options) eqn:H6; [discriminate|].
    destruct (init protocolinit.compiler options) eqn:H7; [discriminate|].
    intros _ p. destruct p; assumption. }
  split.
  - split; [exact Back|]. intros H. rewrite (All H). reflexivity.
  - intros H. rewrite (All (Back H)). reflexivity.
Qed.

Lemma Init_succeeds_iff_all_succeed_witness :
  snd (protocolinit.Init unit (fun _ _ => None) tt []) = protocolinit.order.
Proof.
  apply (proj2 (Init_succeeds_iff_all_succeed unit (fun _ _ => None) tt)).
  reflexivity.
Defined.

(** ** GetInteractshURLSFromEvent *)

Section InteractshURLs.

Variable value : Type.
Variable ToString : value -> string.

Lemma set_add_In (k u : string) (set : list string) :
  In u (httputils.set_add k set) <-> In u set \/ u = k.
Proof.
  unfold httputils.set_add. destruct (existsb (String.eqb k) set) eqn:Hx.
  - apply existsb_exists in Hx as (x & Hin & Heq).
    apply String.eqb_eq in Heq. subst x.
    split; [intros H; left; exact H|intros [H| ->]; assumption].
  - split.
    + intros H. apply in_app_or in H as [H|[H|[]]]; [left; exact H|right; congruence].
    + intros [H| ->]; apply in_or_app; [left; exact H|right; left; reflexivity].
Qed.

Lemma set_add_NoDup (k : string) (set : list string) :
  NoDup set -> NoDup (httputils.set_add k set).
Proof.
  intros H. unfold httputils.set_add.
  destruct (existsb (String.eqb k) set) eqn:Hx; [exact H|].
  apply NoDup_app; [exact H|repeat constructor; intros []|].
  intros x Hin [Hk|[]]. subst x.
  assert (T : existsb (String.eqb k) set = true).
  { apply existsb_exists. exists k. split; [exact Hin|apply String.eqb_refl]. }
  congruence.
Qed.

Lemma range_In (event : list (string * value)) (acc : list string) (u : string) :
  In u (httputils.range value ToString event acc) <->
  In u acc \/
  exists k v, In (k, v) event /\
              String.prefix "interactsh-url" k = true /\ ToString v = u.
Proof.
  revert acc. induction event as [|[k v] event IH]; intros acc.
  - cbn [httputils.range]. split; [intros H; left; exact H|].
    intros [H|(k & v & [] & _)]. exact H.
  - cbn [httputils.range]. rewrite IH.
    destruct (String.prefix "interactsh-url" k) eqn:Hp.
    + rewrite set_add_In. split.
      * intros [[H|H]|(k' & v' & Hin & Hk & Hv)].
        -- left. exact H.
        -- right. exists k, v. repeat split; [left; reflexivity|exact Hp|congruence].
        -- right. exists k', v'. repeat split; [right; exact Hin|exact Hk|exact Hv].
      * intros [H|(k' & v' & [Heq|Hin] & Hk & Hv)].
        -- left. left. exact H.
        -- injection Heq as <- <-. left. right. congruence.
        -- right. exists k', v'. repeat split; assumption.
    + split.
      * intros [H|(k' & v' & Hin & Hk & Hv)]; [left; exact H|].
        right. exists k', v'. repeat split; [right; exact Hin|exact Hk|exact Hv].
      * intros [H|(k' & v' & [Heq|Hin] & Hk & Hv)]; [left; exact H| |].
        -- injection Heq as <- <-. congruence.
        -- right. exists k', v'. repeat split; assumption.
Qed.

Lemma range_NoDup (event : list (string * value)) (acc : list string) :
  NoDup acc -> NoDup (httputils.range value ToString event acc).
Proof.
  revert acc. induction event as [|[k v] event IH]; intros acc H; [exact H|].
  cbn [httputils.range]. apply IH.
  destruct (String.prefix "interactsh-url" k); [apply set_add_NoDup|]; exact H.
Qed.

Lemma urls_In (event : list (string * value)) (u : string) :
  In u (httputils.GetInteractshURLSFromEvent value ToString event) <->
  exists k v, In (k, v) event /\
              String.prefix "interactsh-url" k = true /\ ToString v = u.
Proof.
  unfold httputils.GetInteractshURLSFromEvent. rewrite range_In.
  split; [intros [[]|H]; exact H|intros H; right; exact H].
Qed.

(** X22.  A string is among the URLs returned exactly when it is the
    string form of the value of an entry whose key begins with
    [interactsh-url]; entries with other keys contribute nothing. *)
Theorem GetInteractshURLSFromEvent_In
  (event : list (string * value)) (u : string) :
  In u (httputils.GetInteractshURLSFromEvent value ToString event) <->
  exists k v, In (k, v) event /\
              String.prefix "interactsh-url" k = true /\ ToString v = u.
Proof.
  apply urls_In.
Qed.

(** X23.  The URLs returned are pairwise different, also when several
    entries hold the same URL, and they do not depend on the order in
    which the map is visited: two visiting orders of the same entries
    give the same URLs up to their order. *)
Theorem GetInteractshURLSFromEvent_set
  (event event' : list (string * value)) :
  NoDup (httputils.GetInteractshURLSFromEvent value ToString event) /\
  (Permutation event event' ->
   Permutation (httputils.GetInteractshURLSFromEvent value ToString event)
               (httputils.GetInteractshURLSFromEvent value ToString event')).
Proof.
  assert (N : forall ev, NoDup (httputils.GetInteractshURLSFromEvent value ToString ev)).
  { intros ev. apply range_NoDup. constructor. }
  split; [apply N|]. intros P.
  apply NoDup_Permutation; [apply N|apply N|].
  intros u. rewrite !urls_In.
  split; intros (k & v & Hin & Hk & Hv); exists k, v; repeat split;
    try assumption.
  - apply (Permutation_in _ P). exact Hin.
  - apply (Permutation_in _ (Permutation_sym P)). exact Hin.
Qed.

End InteractshURLs.

Lemma GetInteractshURLSFromEvent_In_witness :
  In "b.oast.fun"
     (httputils.GetInteractshURLSFromEvent string (fun v => v)
        [("interactsh-url", "a.oast.fun"); ("host", "example.com");
         ("interactsh-url_1", "b.oast.fun")]).
Proof.
  apply (proj2 (GetInteractshURLSFromEvent_In string (fun v => v) _ "b.oast.fun")).
  exists "interactsh-url_1", "b.oast.fun".
  split; [right; right; left; reflexivity|split; reflexivity].
Defined.

Lemma GetInteractshURLSFromEvent_set_witness :
  Permutation
    (httputils.GetInteractshURLSFromEvent string (fun v => v)
       [("interactsh-url", "a.oast.fun"); ("host", "example.com");
        ("interactsh-url_1", "b.oast.fun"); ("interactsh-url_2", "a.oast.fun")])
    (httputils.GetInteractshURLSFromEvent string (fun v => v)
       [("interactsh-url_2", "a.oast.fun"); ("interactsh-url_1", "b.oast.fun");
        ("host", "example.com"); ("interactsh-url", "a.oast.fun")]).
Proof.
  apply (proj2 (GetInteractshURLSFromEvent_set string (fun v => v) _ _)).
  apply Permutation_rev.
Defined.

(** ** WriteResult *)

Section WriteResultFacts.

Variable ResultEvent : Type.
Variable output_Write :
  writer.Trace ResultEvent -> ResultEvent -> option error.
Variable issuesClient :
  option (writer.Trace ResultEvent -> ResultEvent -> option error).

Lemma body_calls (result : ResultEvent) (matched : bool)
      (tr : writer.Trace ResultEvent) :
  fst (writer.body ResultEvent output_Write issuesClient result matched tr)
    = true /\
  exists added,
    snd (writer.body ResultEvent output_Write issuesClient result matched tr)
      = tr ++ added /\
    filter (writer.is_call ResultEvent) added
      = writer.calls_for ResultEvent issuesClient result.
Proof.
  unfold writer.body, writer.calls_for. cbn [fst snd].
  split; [destruct matched; reflexivity|].
  destruct issuesClient as [CreateIssue|].
  - destruct (CreateIssue tr result) as [e1|];
      match goal with
      | |- context [output_Write ?t result] => destruct (output_Write t result) as [e2|]
      end; rewrite <- !app_assoc; eexists; (split; [reflexivity|reflexivity]).
  - destruct (output_Write tr result) as [e2|];
      rewrite <- !app_assoc; eexists; (split; [reflexivity|reflexivity]).
Qed.

Lemma range_calls (results : list ResultEvent) (matched : bool)
      (tr : writer.Trace ResultEvent) :
  fst (writer.range ResultEvent output_Write issuesClient results matched tr) =
    (matched || negb (Nat.eqb (List.length results) 0))%bool /\
  exists added,
    snd (writer.range ResultEvent output_Write issuesClient results matched tr)
      = tr ++ added /\
    filter (writer.is_call ResultEvent) added
      = flat_map (writer.calls_for ResultEvent issuesClient) results.
Proof.
  revert matched tr. induction results as [|r results IH]; intros matched tr.
  - cbn. rewrite orb_false_r. split; [reflexivity|].
    exists []. rewrite app_nil_r. split; reflexivity.
  - cbn [writer.range].
    destruct (body_calls r matched tr) as (Hm & added & Ht & Hc).
    destruct (writer.body ResultEvent output_Write issuesClient r matched tr)
      as [m1 tr1]. cbn [fst snd] in *. subst m1 tr1.
    destruct (IH true (tr ++ added)) as (Hm' & added' & Ht' & Hc').
    split.
    + rewrite Hm'. cbn. rewrite orb_true_r. reflexivity.
    + exists (added ++ added'). rewrite Ht', app_assoc. split; [reflexivity|].
      rewrite filter_app, Hc, Hc'. reflexivity.
Qed.

(** X24.  [WriteResult] reports a match exactly when the event has an
    operator result and at least one result to write; without an operator
    result it returns false having called nothing, whatever results the
    event holds. *)
Theorem WriteResult_matched (data : writer.InternalWrappedEvent ResultEvent)
        (tr : writer.Trace ResultEvent) :
  (fst (writer.WriteResult ResultEvent output_Write issuesClient data tr) = true <->
   writer.HasOperatorResult ResultEvent data = true /\
   writer.Results ResultEvent data <> []) /\
  (writer.HasOperatorResult ResultEvent data = false ->
   writer.WriteResult ResultEvent output_Write issuesClient data tr = (false, tr)).
Proof.
  unfold writer.WriteResult.
  destruct (writer.HasOperatorResult ResultEvent data); cbn [negb].
  - split; [|discriminate].
    destruct (range_calls (writer.Results ResultEvent data) false tr) as (Hm & _).
    rewrite Hm. cbn [orb].
    destruct (writer.Results ResultEvent data); cbn.
    + split; [discriminate|intros [_ H]; contradiction].
    + split; [intros _; split; [reflexivity|discriminate]|reflexivity].
  - split; [|reflexivity]. cbn [fst].
    split; [discriminate|intros [H _]; discriminate].
Qed.


End WriteResultFacts.

Lemma WriteResult_matched_witness :
  writer.WriteResult nat (fun _ _ => None) None
    (writer.mkEvent nat false [1%nat; 2%nat]) [] = (false, []).
Proof.
  exact (proj2 (WriteResult_matched nat (fun _ _ => None) None
                  (writer.mkEvent nat false [1%nat; 2%nat]) [])
               eq_refl).
Defined.

